(** * BOQ matching and estimation engine: model and verification

    A shallow embedding of the estimation core of the construction-estimator
    server: [utils/boq_logic.js] (stop words, [RateLimiter], [tokenize],
    [getAiRateSuggestion], [parseAndMatchBOQ]) and the [/upload-boq] handler
    of [routes/boqRoutes.js]; and of two helpers of the project dashboard:
    [calculateActualsByProject] of [utils/projectFinancials.js] and
    [calculateProjectStats] of [utils/projectAnalytics.js].

    Conventions of the embedding.
    - A JavaScript number is an IEEE-754 binary64 value: Rocq's primitive
      [float], whose operations the kernel evaluates.
    - A JavaScript string is a sequence of UTF-16 code units; the model keeps
      the code units below 256 (Basic Latin and Latin-1 Supplement), one
      [ascii] each.  On these, the character classes and case mapping below
      are those of ECMAScript.
    - Code that can throw returns a [completion]; asynchronous code is
      modelled by its sequential result, and separately ([RateLimiter]) by
      the transitions of the event loop.
    - The collaborators that are not part of the repository (the xlsx
      decoder, the HTTP client, [JSON.parse], the database server) are the
      fields of an environment record or a fault oracle. *)

From Stdlib Require Import ZArith NArith List String Ascii Bool Lia.
From Stdlib Require Import Floats.PrimFloat Floats.SpecFloat Floats.FloatOps.
Import ListNotations.

Set Implicit Arguments.
Local Open Scope string_scope.

(** ** Part I. The JavaScript values the engine handles *)

Module Js.

(** *** Characters and strings *)

Definition code (c : ascii) : N := N_of_ascii c.

Definition in_range (lo hi : N) (c : ascii) : bool :=
  ((lo <=? code c) && (code c <=? hi))%N.

(** [\s] of a regular expression, and the characters [trim] strips:
    TAB, LF, VT, FF, CR, SPACE and NO-BREAK SPACE. *)
Definition isWhiteSpace (c : ascii) : bool :=
  in_range 9 13 c || (code c =? 32)%N || (code c =? 160)%N.

Definition isDigit (c : ascii) : bool := in_range 48 57 c.

(** [\w] is [[A-Za-z0-9_]]. *)
Definition isWordChar (c : ascii) : bool :=
  isDigit c || in_range 65 90 c || in_range 97 122 c || (code c =? 95)%N.

(** [toLowerCase] on one code unit: A-Z, and the Latin-1 capitals
    U+00C0..U+00DE except the multiplication sign U+00D7. *)
Definition toLowerChar (c : ascii) : ascii :=
  if in_range 65 90 c || (in_range 192 222 c && negb (code c =? 215)%N)
  then ascii_of_N (code c + 32)
  else c.

Fixpoint smap (f : ascii -> ascii) (s : string) : string :=
  match s with
  | EmptyString => EmptyString
  | String c r => String (f c) (smap f r)
  end.

Fixpoint sfilter (p : ascii -> bool) (s : string) : string :=
  match s with
  | EmptyString => EmptyString
  | String c r => if p c then String c (sfilter p r) else sfilter p r
  end.

Definition isEmpty (s : string) : bool :=
  match s with EmptyString => true | String _ _ => false end.

Definition toLowerCase (s : string) : string := smap toLowerChar s.

Fixpoint trimStart (s : string) : string :=
  match s with
  | EmptyString => EmptyString
  | String c r => if isWhiteSpace c then trimStart r else s
  end.

Fixpoint trimEnd (s : string) : string :=
  match s with
  | EmptyString => EmptyString
  | String c r =>
      let r' := trimEnd r in
      if isWhiteSpace c && isEmpty r' then EmptyString else String c r'
  end.

Definition trim (s : string) : string := trimEnd (trimStart s).

(** [s.replace(/pat/g, '')] for a literal, non-empty [pat]: every
    occurrence found scanning left to right is removed; [skip] counts the
    characters of the occurrence being removed. *)
Fixpoint removeAll_from (pat : string) (skip : nat) (s : string) : string :=
  match s with
  | EmptyString => EmptyString
  | String c r =>
      match skip with
      | S k => removeAll_from pat k r
      | O =>
          if String.prefix pat s
          then removeAll_from pat (String.length pat - 1) r
          else String c (removeAll_from pat 0 r)
      end
  end.

Definition removeAll (pat s : string) : string := removeAll_from pat 0 s.

(** [s.split(/\s+/)]: the fields between maximal runs of white space; a
    string that starts (ends) with white space has an empty first (last)
    field, and the empty string has the single field [""]. [cur] is the
    field being read, reversed; [in_ws] tells that the previous character
    was white space. *)
Fixpoint split_ws_from (cur : list ascii) (in_ws : bool) (s : string)
  : list string :=
  match s with
  | EmptyString => [string_of_list_ascii (rev cur)]
  | String c r =>
      if isWhiteSpace c
      then if in_ws then split_ws_from cur true r
           else string_of_list_ascii (rev cur) :: split_ws_from [] true r
      else split_ws_from (c :: cur) false r
  end.

Definition split_ws (s : string) : list string := split_ws_from [] false s.

(** *** Numbers *)

(** The binary64 value nearest to [(-1)^neg * m * 10^e10] (ties to even),
    for [m >= 0]: the value of a decimal literal. *)
Definition roundDecimal (neg : bool) (m e10 : Z) : float :=
  match m with
  | Zpos p =>
      SF2Prim
        (if (0 <=? e10)%Z
         then binary_normalize prec emax (cond_Zopp neg (m * 10 ^ e10)) 0 neg
         else SFdiv prec emax (S754_finite neg p 0)
                (S754_finite false (Z.to_pos (10 ^ (- e10))) 0))
  | _ => if neg then neg_zero else zero
  end.

Definition digitVal (c : ascii) : Z := Z.of_N (code c) - 48.

(** Reads a maximal run of decimal digits: its value on top of [acc], how
    many digits were read, and the rest of the string. *)
Fixpoint readDigits (acc : Z) (n : nat) (s : string) : Z * nat * string :=
  match s with
  | String c r =>
      if isDigit c then readDigits (10 * acc + digitVal c) (S n) r
      else (acc, n, s)
  | EmptyString => (acc, n, s)
  end.

(** The exponent part [e|E, sign?, digits+] when the string starts with
    one, else exponent 0. *)
Definition readExponent (s : string) : Z :=
  match s with
  | String c r =>
      if (code c =? 101)%N || (code c =? 69)%N then
        let '(neg, r1) :=
          match r with
          | String d r' =>
              if (code d =? 45)%N then (true, r')
              else if (code d =? 43)%N then (false, r')
              else (false, r)
          | EmptyString => (false, r)
          end in
        let '(v, n, _) := readDigits 0 0 r1 in
        match n with
        | O => 0%Z
        | S _ => if neg then (- v)%Z else v
        end
      else 0%Z
  | EmptyString => 0%Z
  end.

(** [parseFloat] on a string: leading white space is skipped and the
    longest prefix that is a [StrDecimalLiteral] is converted; [NaN] when
    there is none. *)
Definition parseFloatStr (s : string) : float :=
  let s0 := trimStart s in
  let '(neg, s1) :=
    match s0 with
    | String c r =>
        if (code c =? 45)%N then (true, r)
        else if (code c =? 43)%N then (false, r)
        else (false, s0)
    | EmptyString => (false, s0)
    end in
  if String.prefix "Infinity" s1
  then (if neg then neg_infinity else infinity)
  else
    let '(ip, ni, s2) := readDigits 0 0 s1 in
    let '(m, nf, s3) :=
      match s2 with
      | String c r =>
          if (code c =? 46)%N then readDigits ip 0 r else (ip, O, s2)
      | EmptyString => (ip, O, s2)
      end in
    match (ni + nf)%nat with
    | O => nan
    | S _ => roundDecimal neg m (readExponent s3 - Z.of_nat nf)
    end.

(** The decimal digits of a non-negative integer, most significant first. *)
Fixpoint digits_fuel (fuel : nat) (n : Z) (acc : string) : string :=
  let d := String (ascii_of_N (Z.to_N (n mod 10) + 48)) acc in
  match fuel with
  | O => d
  | S f => if (n <? 10)%Z then d else digits_fuel f (n / 10)%Z d
  end.

Definition decimalDigits (n : Z) : string :=
  digits_fuel (Z.to_nat (Z.log2 n)) n EmptyString.

Fixpoint zeros (n : nat) : string :=
  match n with O => EmptyString | S k => String "0" (zeros k) end.

(** The least [j >= 1], searched upwards from [j], with
    [den <= num * 10^j]. *)
Fixpoint firstScale (fuel : nat) (num den j : Z) : Z :=
  match fuel with
  | O => j
  | S f => if (den <=? num * 10 ^ j)%Z then j
           else firstScale f num den (j + 1)%Z
  end.

(** The [n] of Number::toString for the positive rational [num/den]:
    [10^(n-1) <= num/den < 10^n]. *)
Definition decimalExponent (num den : Z) : Z :=
  if (den <=? num)%Z
  then Z.of_nat (String.length (decimalDigits (num / den)%Z))
  else (1 - firstScale 400 num den 1)%Z.

(** Number::toString, steps 5 and following: the [k]-digit decimals
    [s * 10^(n-k)] next below and next above [x = num/den]; the one that
    reads back as [x] is taken, the closer one (the even one on a tie) when
    both do.  [shortest] tries [k = 1, 2, ...]: 17 digits always suffice. *)
Definition candidate (x : float) (num den n0 k : Z) : option (Z * Z) :=
  let '(N', D') :=
    if (0 <=? k - n0)%Z then ((num * 10 ^ (k - n0))%Z, den)
    else (num, (den * 10 ^ (n0 - k))%Z) in
  let lo := (N' / D')%Z in
  let rem := (N' mod D')%Z in
  let hi := if (lo + 1 =? 10 ^ k)%Z then ((10 ^ (k - 1))%Z, (n0 + 1)%Z)
            else ((lo + 1)%Z, n0) in
  let ok_lo := PrimFloat.eqb (roundDecimal false lo (n0 - k)%Z) x in
  let ok_hi := PrimFloat.eqb (roundDecimal false (fst hi) (snd hi - k)%Z) x in
  match ok_lo, ok_hi with
  | true, true =>
      if (2 * rem <? D')%Z then Some (lo, n0)
      else if (D' <? 2 * rem)%Z then Some hi
      else if Z.even lo then Some (lo, n0) else Some hi
  | true, false => Some (lo, n0)
  | false, true => Some hi
  | false, false => None
  end.

Fixpoint shortest (fuel : nat) (x : float) (num den n0 k : Z)
  : Z * Z * Z :=
  match candidate x num den n0 k with
  | Some (s, n) => (s, n, k)
  | None =>
      match fuel with
      | O => (0%Z, n0, k)
      | S f => shortest f x num den n0 (k + 1)%Z
      end
  end.

Definition formatDecimal (s n k : Z) : string :=
  let d := decimalDigits s in
  if ((k <=? n) && (n <=? 21))%Z then d ++ zeros (Z.to_nat (n - k))
  else if ((0 <? n) && (n <=? 21))%Z then
    String.substring 0 (Z.to_nat n) d ++ "." ++
    String.substring (Z.to_nat n) (Z.to_nat (k - n)) d
  else if ((-6 <? n) && (n <=? 0))%Z then
    "0." ++ zeros (Z.to_nat (- n)) ++ d
  else
    let e := (n - 1)%Z in
    let es := (if (e <? 0)%Z then "-" else "+") ++ decimalDigits (Z.abs e) in
    if (k =? 1)%Z then d ++ "e" ++ es
    else String.substring 0 1 d ++ "." ++
         String.substring 1 (Z.to_nat (k - 1)) d ++ "e" ++ es.

(** [String(x)] for a number [x]. *)
Definition numberToString (x : float) : string :=
  match Prim2SF x with
  | S754_nan => "NaN"
  | S754_zero _ => "0"
  | S754_infinity neg => if neg then "-Infinity" else "Infinity"
  | S754_finite neg m e =>
      let '(num, den) :=
        if (0 <=? e)%Z then ((Zpos m * 2 ^ e)%Z, 1%Z)
        else (Zpos m, (2 ^ (- e))%Z) in
      let '(s, n, k) :=
        shortest 17 (abs x) num den (decimalExponent num den) 1 in
      (if neg then "-" else "") ++ formatDecimal s n k
  end.

(** *** Primitive values *)

Inductive value : Type :=
| VUndefined
| VNull
| VBool (b : bool)
| VNum (x : float)
| VStr (s : string).

(** ToBoolean. *)
Definition truthy (v : value) : bool :=
  match v with
  | VUndefined | VNull => false
  | VBool b => b
  | VNum x => negb (is_nan x || is_zero x)
  | VStr s => negb (isEmpty s)
  end.

(** [String(v)]. *)
Definition ToString (v : value) : string :=
  match v with
  | VUndefined => "undefined"
  | VNull => "null"
  | VBool b => if b then "true" else "false"
  | VNum x => numberToString x
  | VStr s => s
  end.

(** [v || ''] *)
Definition orEmpty (v : value) : value :=
  if truthy v then v else VStr "".

(** The global [parseFloat]: its argument is converted to a string first. *)
Definition parseFloat (v : value) : float := parseFloatStr (ToString v).

Definition isNaN (x : float) : bool := is_nan x.

End Js.

(** ** Part II. Completions and the external collaborators *)

Inductive error : Type :=
| TypeError (message : string)
| SyntaxError
| NetworkError
| DecodeError
| QueryError.

(** The outcome of running code that can throw. *)
Inductive completion (A : Type) : Type :=
| Return (a : A)
| Throw (e : error).
Arguments Return {A} a.
Arguments Throw {A} e.

(** Values that [JSON.parse] and the HTTP client hand back. *)
#[local] Set Warnings "-register-all".
Inductive json : Type :=
| JNull
| JBool (b : bool)
| JNum (x : float)
| JStr (s : string)
| JArr (items : list json)
| JObj (fields : list (string * json)).
#[local] Set Warnings "register-all".

Module Json.

(** [o.k] on an object: the first binding of [k] in the field list, which
    holds each key once. *)
Fixpoint lookup (k : string) (fields : list (string * json)) : option json :=
  match fields with
  | [] => None
  | (k', v) :: rest => if String.eqb k k' then Some v else lookup k rest
  end.

(** [j?.k] where [None] stands for [undefined]. A string or an array has
    no property of the names used here. *)
Definition prop (k : string) (j : option json) : option json :=
  match j with
  | Some (JObj fields) => lookup k fields
  | _ => None
  end.

(** [j?.[0]]: the first element of an array, the first character of a
    string. *)
Definition first (j : option json) : option json :=
  match j with
  | Some (JArr (x :: _)) => Some x
  | Some (JStr (String c _)) => Some (JStr (String c EmptyString))
  | Some (JObj fields) => lookup "0" fields
  | _ => None
  end.

Definition truthy (j : option json) : bool :=
  match j with
  | None | Some JNull => false
  | Some (JBool b) => b
  | Some (JNum x) => negb (is_nan x || is_zero x)
  | Some (JStr s) => negb (Js.isEmpty s)
  | Some (JArr _) | Some (JObj _) => true
  end.

End Json.

Definition Buffer : Type := list Byte.byte.

(** A decoded worksheet as [sheet_to_json(ws, {header: 1})] returns it: one
    array of cell values per row; a cell that is missing reads as
    [undefined]. *)
Definition Row : Type := list Js.value.
Definition Sheet : Type := list Row.

Definition cell (row : Row) (i : nat) : Js.value := nth i row Js.VUndefined.

(** What [axios.post] settles with: a rejection, or a response whose
    [data] is the decoded body ([None]: no body). *)
Inductive NetOutcome : Type :=
| NetFail
| NetResponse (data : option json).

(** A request to the rate-suggestion service. *)
Record Request : Type := { req_url : string; req_prompt : string }.

(** The collaborators outside the repository.
    - [xlsx_read buffer]: [xlsx.read] followed by the decoding of every
      sheet, in the order of [SheetNames]; it throws on a file it cannot
      read.
    - [axios_post n url prompt]: the outcome of the [n]-th request (counted
      from 0) sent to the service.
    - [JSON_parse s]: [None] when [JSON.parse] throws a [SyntaxError]. *)
Record Env : Type := {
  xlsx_read : Buffer -> completion (list Sheet);
  axios_post : nat -> string -> string -> NetOutcome;
  JSON_parse : string -> option json
}.

(** Effectful code of the engine: it may throw, and it appends to the log
    of the requests sent so far. *)
Definition M (A : Type) : Type := list Request -> completion A * list Request.

Definition ret {A} (a : A) : M A := fun log => (Return a, log).
Definition throw {A} (e : error) : M A := fun log => (Throw e, log).
Definition bind {A B} (m : M A) (f : A -> M B) : M B :=
  fun log =>
    match m log with
    | (Return a, log') => f a log'
    | (Throw e, log') => (Throw e, log')
    end.
Definition tryCatch {A} (m : M A) (handler : error -> M A) : M A :=
  fun log =>
    match m log with
    | (Return a, log') => (Return a, log')
    | (Throw e, log') => handler e log'
    end.
Definition lift {A} (c : completion A) : M A := fun log => (c, log).

Notation "x <- m ;; k" := (bind m (fun x => k))
  (at level 61, m at next level, right associativity).
Notation "' p <- m ;; k" := (bind m (fun x => let 'p := x in k))
  (at level 61, p pattern, m at next level, right associativity).

(** ** Part III. [utils/boq_logic.js] *)

(** A row of the [rates] table as the driver returns it: every column is a
    JavaScript value ([NUMERIC] columns arrive as strings, a [NULL] or
    missing column as [null] or [undefined]). *)
Module Rate.
Record t : Type := {
  id : Z;
  item_name : Js.value;
  unit : Js.value;
  rate_value : Js.value;
  keywords : Js.value
}.
End Rate.

(** The priced line the orchestrator pushes to [processedItems]; [None]
    is [null]. *)
Module Item.
Record t : Type := {
  item_no : string;
  description : string;
  quantity : float;
  unit : string;
  rate : option float;
  total : option float;
  isAiSuggestion : bool;
  source : string
}.
End Item.

Record EstimationResult : Type := {
  processedItems : list Item.t;
  projectTotal : float
}.

Module Boq.
Import Js.

Definition STOP_WORDS : list string :=
  [ "a"; "an"; "and"; "the"; "in"; "on"; "for"; "with"; "of"; "to"; "is";
    "are"; "was"; "were"; "including"; "supply"; "providing"; "of"; "all";
    "complete"; "work"; "as"; "per"; "details"; "item"; "rate"; "charges";
    "fixing"; "laying" ].

(** [Set.prototype.has] on a set kept as the list of its elements in
    insertion order. *)
Definition has (set : list string) (x : string) : bool :=
  existsb (String.eqb x) set.

(** [new Set(array)]: the elements in order of first occurrence. *)
Fixpoint setOf_from (seen : list string) (l : list string) : list string :=
  match l with
  | [] => []
  | x :: r => if has seen x then setOf_from seen r
              else x :: setOf_from (x :: seen) r
  end.

Definition setOf (l : list string) : list string := setOf_from [] l.

Definition keepWord (word : string) : bool :=
  (2 <? String.length word)%nat && negb (has STOP_WORDS word).

Definition tokenize (text : value) : list string :=
  match text with
  | VStr s =>
      if isEmpty s then []
      else
        setOf
          (filter keepWord
             (split_ws
                (sfilter (fun c => isWordChar c || isWhiteSpace c)
                   (toLowerCase s))))
  | _ => []
  end.

(** *** The fuzzy rate matcher (section B of the row loop) *)

(** [rate.unit.toLowerCase() === unit]; the method call throws a
    [TypeError] on a [unit] that is not a string. *)
Definition unitMatches (unit : string) (rate : Rate.t) : completion bool :=
  match Rate.unit rate with
  | VStr u => Return (String.eqb (toLowerCase u) unit)
  | VUndefined | VNull =>
      Throw (TypeError "Cannot read properties of null (reading 'toLowerCase')")
  | _ => Throw (TypeError "rate.unit.toLowerCase is not a function")
  end.

(** [ratesData.filter(rate => rate.unit.toLowerCase() === unit)] *)
Fixpoint relevantRates (unit : string) (ratesData : list Rate.t)
  : completion (list Rate.t) :=
  match ratesData with
  | [] => Return []
  | rate :: rest =>
      match unitMatches unit rate with
      | Throw e => Throw e
      | Return keep =>
          match relevantRates unit rest with
          | Throw e => Throw e
          | Return l => Return (if keep then rate :: l else l)
          end
      end
  end.

(** The inner loop over [descriptionTokens]. *)
Definition currentScore (descriptionTokens : list string) (rate : Rate.t)
  : nat :=
  let rateNameTokens := tokenize (Rate.item_name rate) in
  let keywordTokens := tokenize (Rate.keywords rate) in
  fold_left
    (fun score token =>
       let score := if has rateNameTokens token then score + 2 else score in
       if has keywordTokens token then score + 1 else score)
    descriptionTokens 0.

(** The loop over the relevant rates, on the pair
    [(bestMatch, highestScore)]. *)
Definition bestStep (descriptionTokens : list string)
  (acc : option Rate.t * nat) (rate : Rate.t) : option Rate.t * nat :=
  let '(bestMatch, highestScore) := acc in
  let score := currentScore descriptionTokens rate in
  if (highestScore <? score)%nat then (Some rate, score)
  else (bestMatch, highestScore).

Definition fuzzyMatch (description unit : string) (ratesData : list Rate.t)
  : completion (option Rate.t * nat) :=
  match relevantRates unit ratesData with
  | Throw e => Throw e
  | Return relevant =>
      if (0 <? List.length relevant)%nat
      then Return (fold_left (bestStep (tokenize (VStr description)))
                     relevant (None, 0))
      else Return (None, 0)
  end.

(** *** The external rate advisor adapter *)

Definition quote : string := String (ascii_of_nat 34) EmptyString.
Definition newline : string := String (ascii_of_nat 10) EmptyString.

Definition prompt (description unit : string) : string :=
  newline ++
  "      You are an expert quantity surveyor in India. For the BOQ item description below, provide an estimated market rate in Indian Rupees (INR) for the specified unit of measurement." ++ newline ++
  "      - Analyze the description to understand the work involved." ++ newline ++
  "      - Consider standard Indian construction costs." ++ newline ++
  "      - Respond ONLY with a valid JSON object in the format: {" ++ quote ++ "rate" ++ quote ++ ": <number>}" ++ newline ++
  "      - Do not include any other text, explanations, or markdown formatting." ++ newline ++
  newline ++
  "      **Description:** " ++ quote ++ description ++ quote ++ newline ++
  "      **Unit of Measurement:** " ++ quote ++ unit ++ quote ++ newline ++
  "    ".

Definition geminiApiUrl (geminiApiKey : value) : string :=
  "https://generativelanguage.googleapis.com/v1beta/models/gemini-2.5-flash-preview-09-2025:generateContent?key="
  ++ ToString geminiApiKey.

(** [response.data?.candidates?.[0]?.content?.parts?.[0]?.text] *)
Definition rawTextOf (data : option json) : option json :=
  Json.prop "text"
    (Json.first
       (Json.prop "parts"
          (Json.prop "content" (Json.first (Json.prop "candidates" data))))).

Definition fence : string := "```".

(** [rawText.replace(/```json/g, '').replace(/```/g, '').trim()] *)
Definition cleanReply (rawText : string) : string :=
  trim (removeAll fence (removeAll (fence ++ "json") rawText)).

(** The body of the [try] block. *)
Definition adviseBody (env : Env) (url body : string) : M (option float) :=
  fun log =>
    let log' := (log ++ [ {| req_url := url; req_prompt := body |} ])%list in
    match axios_post env (List.length log) url body with
    | NetFail => (Throw NetworkError, log')
    | NetResponse data =>
        let rawText := rawTextOf data in
        if negb (Json.truthy rawText) then (Return None, log')
        else
          match rawText with
          | Some (JStr text) =>
              let jsonText := cleanReply text in
              match JSON_parse env jsonText with
              | None => (Throw SyntaxError, log')
              | Some parsed =>
                  if Json.truthy (Some parsed) then
                    match Json.prop "rate" (Some parsed) with
                    | Some (JNum rate) => (Return (Some rate), log')
                    | _ => (Return None, log')
                    end
                  else (Return None, log')
              end
          | _ => (Throw (TypeError "rawText.replace is not a function"), log')
          end
    end.

(** The result is the [rate] of the suggestion [{ rate }], or [None] for
    [null]. *)
Definition getAiRateSuggestion (env : Env) (description unit : string)
  (geminiApiKey : value) : M (option float) :=
  if negb (truthy geminiApiKey) then ret None
  else
    tryCatch
      (adviseBody env (geminiApiUrl geminiApiKey) (prompt description unit))
      (fun _ => ret None).

(** [aiLimiter.add(task)]: the promise settles as the task does; the
    limiter decides only when the task starts (see [RateLimiter]). *)
Definition aiLimiter_add {A} (task : M A) : M A := task.

(** *** The orchestrator *)

Record LoopState : Type := {
  items : list Item.t;
  runningTotal : float
}.

(** One iteration of the [for ... of] loop over the data rows. *)
Definition processRow (env : Env) (ratesData : list Rate.t)
  (geminiApiKey : value) (st : LoopState) (row : Row) : M LoopState :=
  let item_no := trim (ToString (orEmpty (cell row 0))) in
  let description := trim (ToString (orEmpty (cell row 1))) in
  let quantity := parseFloat (cell row 2) in
  let unit := toLowerCase (trim (ToString (orEmpty (cell row 3)))) in
  if isEmpty description || isNaN quantity || isEmpty unit then ret st
  else
    '(bestMatch, highestScore) <- lift (fuzzyMatch description unit ratesData) ;;
    '(finalRate, isAiSuggestion, source) <-
      match bestMatch, (0 <? highestScore)%nat with
      | Some best, true =>
          ret (Some (parseFloat (Rate.rate_value best)), false, "Database")
      | _, _ =>
          aiSuggestion <-
            aiLimiter_add (getAiRateSuggestion env description unit geminiApiKey) ;;
          match aiSuggestion with
          | Some rate => ret (Some rate, true, "AI Estimate")
          | None => ret (None, false, "Manual")
          end
      end ;;
    let finalTotal := option_map (fun r => PrimFloat.mul r quantity) finalRate in
    let total' :=
      match finalTotal with
      | Some t => PrimFloat.add (runningTotal st) t
      | None => runningTotal st
      end in
    ret {| items := (items st ++
                    [ {| Item.item_no := item_no;
                         Item.description := description;
                         Item.quantity := quantity;
                         Item.unit := unit;
                         Item.rate := finalRate;
                         Item.total := finalTotal;
                         Item.isAiSuggestion := isAiSuggestion;
                         Item.source := source |} ])%list;
           runningTotal := total' |}.

Fixpoint processRows (env : Env) (ratesData : list Rate.t)
  (geminiApiKey : value) (rows : list Row) (st : LoopState) : M LoopState :=
  match rows with
  | [] => ret st
  | row :: rest =>
      st' <- processRow env ratesData geminiApiKey st row ;;
      processRows env ratesData geminiApiKey rest st'
  end.

(** [workbook.Sheets[workbook.SheetNames[0]]] decoded; a workbook without
    sheets decodes to no rows. *)
Definition firstSheet (sheets : list Sheet) : Sheet :=
  match sheets with
  | [] => []
  | sheet :: _ => sheet
  end.

(** [processedItems = []] and [projectTotal = 0] before the loop. *)
Definition initial : LoopState := {| items := []; runningTotal := zero |}.

(** [{ processedItems, projectTotal }] *)
Definition resultOf (st : LoopState) : EstimationResult :=
  {| processedItems := items st; projectTotal := runningTotal st |}.

(** The body of the [try] block of [parseAndMatchBOQ]. *)
Definition estimate (env : Env) (fileBuffer : Buffer)
  (ratesData : list Rate.t) (geminiApiKey : value) : M LoopState :=
  sheets <- lift (xlsx_read env fileBuffer) ;;
  let boqData := firstSheet sheets in
  processRows env ratesData geminiApiKey (skipn 1 boqData) initial.

Definition emptyResult : EstimationResult :=
  {| processedItems := []; projectTotal := zero |}.

(** [parseAndMatchBOQ]: the [try] block, its [catch], and the final
    [return]. *)
Definition parseAndMatchBOQ (env : Env) (fileBuffer : Buffer)
  (ratesData : list Rate.t) (geminiApiKey : value) : M EstimationResult :=
  tryCatch
    (st <- estimate env fileBuffer ratesData geminiApiKey ;;
     ret (resultOf st))
    (fun _ => ret emptyResult).

End Boq.

(** ** Part IV. The rate limiter and the event loop around it

    [process] is an [async] method: it runs to its [await], is resumed when
    the awaited task settles, and arms a timer whose callback runs later.
    The model has one transition for each of these pieces of code and keeps
    the event loop's bookkeeping (the suspended calls, the armed timers, the
    clock) next to the limiter's own fields.  Tasks are named by the ticket
    the caller got at [add]; timers never fire early. *)

Module RateLimiter.
Section Limiter.

(** What a task resolves with. *)
Variable A : Type.

Definition Ticket : Type := nat.

(** The fields of the class. *)
Record t : Type := {
  queue : list Ticket;
  isProcessing : bool;
  minDelayMs : Z
}.

(** [new RateLimiter(minDelayMs)] *)
Definition create (delay : Z) : t :=
  {| queue := []; isProcessing := false; minDelayMs := delay |}.

Inductive Event : Type :=
| Enqueued (time : Z) (ticket : Ticket)
| Started (time : Z) (ticket : Ticket)
| Resolved (time : Z) (ticket : Ticket) (result : A)
| Rejected (time : Z) (ticket : Ticket) (reason : error).

Record Loop : Type := {
  limiter : t;
  now : Z;
  (** calls of [process] suspended at [await task()], by ticket *)
  awaiting : list Ticket;
  (** armed timers: the time from which each may fire *)
  timers : list Z;
  (** what happened so far, oldest first *)
  trace : list Event
}.

Definition boot (delay : Z) (start : Z) : Loop :=
  {| limiter := create delay; now := start; awaiting := []; timers := [];
     trace := [] |}.

(** [process()] up to its [await]: the guard, then the head of the queue is
    taken and its task called. *)
Definition process (l : Loop) : Loop :=
  let lim := limiter l in
  if isProcessing lim || (List.length (queue lim) =? 0)%nat then l
  else
    match queue lim with
    | [] => l
    | ticket :: rest =>
        {| limiter := {| queue := rest; isProcessing := true;
                         minDelayMs := minDelayMs lim |};
           now := now l;
           awaiting := (awaiting l ++ [ticket])%list;
           timers := timers l;
           trace := (trace l ++ [Started (now l) ticket])%list |}
    end.

(** [add(task)]: the entry is pushed and [process] called. *)
Definition add (ticket : Ticket) (l : Loop) : Loop :=
  let lim := limiter l in
  process
    {| limiter := {| queue := (queue lim ++ [ticket])%list;
                     isProcessing := isProcessing lim;
                     minDelayMs := minDelayMs lim |};
       now := now l;
       awaiting := awaiting l;
       timers := timers l;
       trace := (trace l ++ [Enqueued (now l) ticket])%list |}.

Fixpoint remove1 {X} (eqb : X -> X -> bool) (x : X) (l : list X) : list X :=
  match l with
  | [] => []
  | y :: r => if eqb x y then r else y :: remove1 eqb x r
  end.

(** The event a settlement leaves in the trace. *)
Definition settlement (time : Z) (ticket : Ticket) (outcome : completion A)
  : Event :=
  match outcome with
  | Return result => Resolved time ticket result
  | Throw reason => Rejected time ticket reason
  end.

(** The rest of [process] once the awaited task has settled: [resolve] or
    [reject] of that entry, then, in [finally], the timer is armed. *)
Definition resume (ticket : Ticket) (outcome : completion A) (l : Loop)
  : Loop :=
  {| limiter := limiter l;
     now := now l;
     awaiting := remove1 Nat.eqb ticket (awaiting l);
     timers := (timers l ++ [now l + minDelayMs (limiter l)])%list%Z;
     trace := (trace l ++ [settlement (now l) ticket outcome])%list |}.

(** The timer's callback. *)
Definition timeout (due : Z) (l : Loop) : Loop :=
  let lim := limiter l in
  process
    {| limiter := {| queue := queue lim; isProcessing := false;
                     minDelayMs := minDelayMs lim |};
       now := now l;
       awaiting := awaiting l;
       timers := remove1 Z.eqb due (timers l);
       trace := trace l |}.

Definition tick (dt : Z) (l : Loop) : Loop :=
  {| limiter := limiter l; now := (now l + dt)%Z; awaiting := awaiting l;
     timers := timers l; trace := trace l |}.

(** One turn of the event loop. *)
Inductive step : Loop -> Loop -> Prop :=
| step_add ticket l :
    step l (add ticket l)
| step_resume ticket outcome l :
    In ticket (awaiting l) ->
    step l (resume ticket outcome l)
| step_timeout due l :
    In due (timers l) -> (due <= now l)%Z ->
    step l (timeout due l)
| step_tick dt l :
    (0 <= dt)%Z ->
    step l (tick dt l).

Inductive reachable (delay start : Z) : Loop -> Prop :=
| reach_boot : reachable delay start (boot delay start)
| reach_step l l' :
    reachable delay start l -> step l l' -> reachable delay start l'.

(** Readings of a trace. *)
Definition enqueuedOf (e : Event) : list Ticket :=
  match e with Enqueued _ k => [k] | _ => [] end.
Definition startedOf (e : Event) : list Ticket :=
  match e with Started _ k => [k] | _ => [] end.
Definition startTimeOf (e : Event) : list Z :=
  match e with Started time _ => [time] | _ => [] end.

Definition enqueued (tr : list Event) : list Ticket := flat_map enqueuedOf tr.
Definition started (tr : list Event) : list Ticket := flat_map startedOf tr.
Definition startTimes (tr : list Event) : list Z := flat_map startTimeOf tr.

(** A trace is serial for cooldown [c] when, read from the start with
    [running] the task in progress and [last] the time the previous task
    settled, every task starts while none is running and no sooner than
    [c] after the previous one settled, and every settlement is that of the
    running task, not before it started. *)
Fixpoint serial (c : Z) (running : option (Ticket * Z)) (last : option Z)
  (tr : list Event) : Prop :=
  match tr with
  | [] => True
  | Enqueued _ _ :: rest => serial c running last rest
  | Started time k :: rest =>
      running = None /\
      match last with Some e => (e + c <= time)%Z | None => True end /\
      serial c (Some (k, time)) last rest
  | Resolved time k _ :: rest | Rejected time k _ :: rest =>
      (exists s, running = Some (k, s) /\ (s <= time)%Z) /\
      serial c None (Some time) rest
  end.

(** What reading a trace leaves: the task in progress with its start
    time, and the time of the last settlement. *)
Definition scanStep (st : option (Ticket * Z) * option Z) (e : Event)
  : option (Ticket * Z) * option Z :=
  match e with
  | Enqueued _ _ => st
  | Started time k => (Some (k, time), snd st)
  | Resolved time _ _ | Rejected time _ _ => (None, Some time)
  end.

Definition scan (st : option (Ticket * Z) * option Z) (tr : list Event)
  : option (Ticket * Z) * option Z :=
  fold_left scanStep tr st.

(** Times that are at least [c] apart from one to the next, the first one
    at least [c] after [prev]. *)
Fixpoint spacedFrom (c : Z) (prev : option Z) (times : list Z) : Prop :=
  match times with
  | [] => True
  | time :: rest =>
      match prev with Some p => (p + c <= time)%Z | None => True end /\
      spacedFrom c (Some time) rest
  end.

Definition spaced (c : Z) (times : list Z) : Prop := spacedFrom c None times.

(** Where the limiter stands, [running] and [last] being what reading the
    trace leaves: idle, awaiting its one task, or cooling down on its one
    timer. [queued] tells whether an idle limiter may hold entries (it may
    between the push of [add], or the reset of the timer callback, and the
    call of [process] that follows). *)
Definition phase (queued : bool) (delay : Z) (l : Loop) : Prop :=
  let '(running, last) := scan (None, None) (trace l) in
  (isProcessing (limiter l) = false /\ awaiting l = [] /\ timers l = [] /\
   (queued = false -> queue (limiter l) = []) /\ running = None /\
   (forall e, last = Some e -> (e + delay <= now l)%Z))
  \/
  (isProcessing (limiter l) = true /\
   exists k s, awaiting l = [k] /\ timers l = [] /\
               running = Some (k, s) /\ (s <= now l)%Z)
  \/
  (isProcessing (limiter l) = true /\
   exists e, awaiting l = [] /\ timers l = [(e + delay)%Z] /\
             running = None /\ last = Some e).

(** The invariant of the event loop around a limiter created with
    [delay]. *)
Definition invariant (queued : bool) (delay : Z) (l : Loop) : Prop :=
  minDelayMs (limiter l) = delay /\
  serial delay None None (trace l) /\
  (started (trace l) ++ queue (limiter l))%list = enqueued (trace l) /\
  phase queued delay l.

(** The settlements a trace records, as (ticket, failed?). *)
Definition settledOf (e : Event) : list (Ticket * bool) :=
  match e with
  | Resolved _ k _ => [(k, false)]
  | Rejected _ k _ => [(k, true)]
  | _ => []
  end.
Definition settlements (tr : list Event) : list (Ticket * bool) :=
  flat_map settledOf tr.

End Limiter.

(** The instance shared by every upload: one request every 4.5 seconds. *)
Definition cooldown : Z := 4500.
Definition aiLimiter : t := create cooldown.

End RateLimiter.

(** ** Part V. [routes/boqRoutes.js]: the [/upload-boq] handler *)

(** The database as the handler sees it through one pooled client.
    Statements run against the transaction's working copy when one is
    open, else against the committed tables; [COMMIT] publishes the working
    copy and [ROLLBACK] drops it.  A statement the server refuses (a
    violated constraint, a lost connection) throws and changes nothing;
    which statements are refused is the oracle [faulty], asked with the
    number of statements the client issued before. *)
Module Db.

(** The parameters bound to [$1 .. $5] of the insert, and the row's
    serial [id]. *)
Record BoqItem : Type := {
  id : Z;
  description : string;
  quantity : float;
  unit : string;
  rate : option float;
  total : option float
}.

Record Tables : Type := {
  rates : list Rate.t;
  boq_items : list BoqItem;
  (** last value of the sequence behind [boq_items.id] *)
  boq_items_id_seq : Z;
  (** every other table, by name *)
  others : list (string * list Row)
}.

Inductive Statement : Type :=
| SelectRates
| Begin
| TruncateBoqItems
| InsertBoqItem (description : string) (quantity : float) (unit : string)
    (rate total : option float)
| Commit
| Rollback.

Record Client : Type := {
  committed : Tables;
  transaction : option Tables;
  issued : nat
}.

Definition view (c : Client) : Tables :=
  match transaction c with
  | Some working => working
  | None => committed c
  end.

Definition write (f : Tables -> Tables) (c : Client) : Client :=
  match transaction c with
  | Some working =>
      {| committed := committed c; transaction := Some (f working);
         issued := issued c |}
  | None =>
      {| committed := f (committed c); transaction := None;
         issued := issued c |}
  end.

Definition truncate (t : Tables) : Tables :=
  {| rates := rates t; boq_items := []; boq_items_id_seq := 0;
     others := others t |}.

Definition insert (description : string) (quantity : float) (unit : string)
  (rate total : option float) (t : Tables) : Tables :=
  let next := (boq_items_id_seq t + 1)%Z in
  {| rates := rates t;
     boq_items :=
       (boq_items t ++
        [ {| id := next; description := description; quantity := quantity;
             unit := unit; rate := rate; total := total |} ])%list;
     boq_items_id_seq := next;
     others := others t |}.

Definition run (stmt : Statement) (c : Client) : Client :=
  match stmt with
  | SelectRates => c
  | Begin =>
      match transaction c with
      | Some _ => c
      | None => {| committed := committed c;
                   transaction := Some (committed c);
                   issued := issued c |}
      end
  | TruncateBoqItems => write truncate c
  | InsertBoqItem d q u r t => write (insert d q u r t) c
  | Commit =>
      {| committed := view c; transaction := None; issued := issued c |}
  | Rollback =>
      {| committed := committed c; transaction := None; issued := issued c |}
  end.

Definition count (c : Client) : Client :=
  {| committed := committed c; transaction := transaction c;
     issued := S (issued c) |}.

(** [client.query(stmt)]: the rows it returns (those of [rates] for the
    select, none otherwise) or the error it throws. *)
Definition query (faulty : nat -> Statement -> bool) (stmt : Statement)
  (c : Client) : completion (list Rate.t) * Client :=
  if faulty (issued c) stmt then (Throw QueryError, count c)
  else
    (Return (match stmt with SelectRates => rates (view c) | _ => [] end),
     count (run stmt c)).

End Db.

Module Routes.
Import Db.

Inductive Response : Type :=
| BadRequest (error : string)
| Ok (body : EstimationResult)
| ServerError (message : string)
(** the handler's promise rejected before any response was sent *)
| Unanswered.

Definition insertOf (item : Item.t) : Statement :=
  InsertBoqItem (Item.description item) (Item.quantity item) (Item.unit item)
    (Item.rate item) (Item.total item).

(** The [for ... of] loop over [processedItems] issuing the inserts. *)
Fixpoint insertItems (faulty : nat -> Statement -> bool)
  (processed : list Item.t) (c : Client)
  : completion Datatypes.unit * Client :=
  match processed with
  | [] => (Return tt, c)
  | item :: rest =>
      match query faulty (insertOf item) c with
      | (Throw e, c') => (Throw e, c')
      | (Return _, c') => insertItems faulty rest c'
      end
  end.

(** Steps 1 to 3 of the [try] block, up to and including [COMMIT]. *)
Definition persist (env : Env) (faulty : nat -> Statement -> bool)
  (fileBuffer : Buffer) (geminiApiKey : Js.value) (c : Client)
  (log : list Request)
  : completion EstimationResult * Client * list Request :=
  match query faulty SelectRates c with
  | (Throw e, c1) => (Throw e, c1, log)
  | (Return ratesData, c1) =>
      match Boq.parseAndMatchBOQ env fileBuffer ratesData geminiApiKey log with
      | (Throw e, log') => (Throw e, c1, log')
      | (Return result, log') =>
          match query faulty Begin c1 with
          | (Throw e, c2) => (Throw e, c2, log')
          | (Return _, c2) =>
              match query faulty TruncateBoqItems c2 with
              | (Throw e, c3) => (Throw e, c3, log')
              | (Return _, c3) =>
                  let '(inserted, c4) :=
                    if (0 <? List.length (processedItems result))%nat
                    then insertItems faulty (processedItems result) c3
                    else (Return tt, c3) in
                  match inserted with
                  | Throw e => (Throw e, c4, log')
                  | Return _ =>
                      match query faulty Commit c4 with
                      | (Throw e, c5) => (Throw e, c5, log')
                      | (Return _, c5) => (Return result, c5, log')
                      end
                  end
              end
          end
      end
  end.

(** [router.post('/upload-boq', ...)] with [file] the uploaded file of the
    request, if any, and [c] the client the pool hands out. *)
Definition uploadBoq (env : Env) (faulty : nat -> Statement -> bool)
  (file : option Buffer) (geminiApiKey : Js.value) (c : Client)
  (log : list Request) : Response * Client * list Request :=
  match file with
  | None =>
      (BadRequest "No file uploaded. Please upload a .xlsx file.", c, log)
  | Some fileBuffer =>
      match persist env faulty fileBuffer geminiApiKey c log with
      | (Return result, c', log') => (Ok result, c', log')
      | (Throw _, c', log') =>
          match query faulty Rollback c' with
          | (Throw _, c'') => (Unanswered, c'', log')
          | (Return _, c'') =>
              (ServerError "An error occurred during BOQ processing.", c'', log')
          end
      end
  end.

End Routes.

(** ** Part VI. Vocabulary of the properties *)

Module Props.
Import Js Boq.

(** The fields the orchestrator reads off a row. *)
Definition rowItemNo (row : Row) : string :=
  trim (ToString (orEmpty (cell row 0))).
Definition rowDescription (row : Row) : string :=
  trim (ToString (orEmpty (cell row 1))).
Definition rowQuantity (row : Row) : float := parseFloat (cell row 2).
Definition rowUnit (row : Row) : string :=
  toLowerCase (trim (ToString (orEmpty (cell row 3)))).

(** The rows the loop does not skip. *)
Definition validRow (row : Row) : bool :=
  negb (isEmpty (rowDescription row) || isNaN (rowQuantity row)
        || isEmpty (rowUnit row)).

(** The rows as the parsing contract of the specification words it: a
    quantity that is a number and is positive or zero. *)
Definition validRowAsSpecified (row : Row) : bool :=
  negb (isEmpty (rowDescription row)) && PrimFloat.leb zero (rowQuantity row)
  && negb (isEmpty (rowUnit row)).

(** Null contributes nothing to a total. *)
Definition addTotal (acc : float) (t : option float) : float :=
  match t with
  | Some x => PrimFloat.add acc x
  | None => acc
  end.

(** The sum of the non-null totals, taken from [acc] in list order. *)
Definition sumFrom (acc : float) (l : list Item.t) : float :=
  fold_left (fun a item => addTotal a (Item.total item)) l acc.

Definition sumTotals (l : list Item.t) : float := sumFrom zero l.

(** The catalog matched the item: a best match with a positive score. *)
Definition isHit (ratesData : list Rate.t) (item : Item.t) : bool :=
  match fuzzyMatch (Item.description item) (Item.unit item) ratesData with
  | Return (Some _, score) => (0 <? score)%nat
  | _ => false
  end.

(** What the advisor adapter answers for the item when [log] holds the
    requests sent before. *)
Definition advice (env : Env) (geminiApiKey : value) (log : list Request)
  (item : Item.t) : completion (option float) * list Request :=
  getAiRateSuggestion env (Item.description item) (Item.unit item)
    geminiApiKey log.

(** Asked about the item after the requests of [log], the advisor returns
    a suggestion. *)
Definition advised (env : Env) (geminiApiKey : value) (log : list Request)
  (item : Item.t) : Prop :=
  exists suggested,
    fst (advice env geminiApiKey log item) = Return (Some suggested).

(** The item's rate comes from the catalog or, the catalog having missed,
    from the advisor. *)
Definition rateFound (env : Env) (ratesData : list Rate.t)
  (geminiApiKey : value) (log : list Request) (item : Item.t) : Prop :=
  isHit ratesData item = true \/
  (isHit ratesData item = false /\ advised env geminiApiKey log item).

(** The log of requests after the item's row has been processed. *)
Definition logAfter (env : Env) (ratesData : list Rate.t)
  (geminiApiKey : value) (log : list Request) (item : Item.t)
  : list Request :=
  if isHit ratesData item then log else snd (advice env geminiApiKey log item).

(** The log of requests before each item of a run that starts with [log]. *)
Fixpoint logsBefore (env : Env) (ratesData : list Rate.t)
  (geminiApiKey : value) (log : list Request) (l : list Item.t)
  : list (list Request) :=
  match l with
  | [] => []
  | item :: rest =>
      log :: logsBefore env ratesData geminiApiKey
               (logAfter env ratesData geminiApiKey log item) rest
  end.

Definition logAtEnd (env : Env) (ratesData : list Rate.t)
  (geminiApiKey : value) (log : list Request) (l : list Item.t)
  : list Request :=
  fold_left (logAfter env ratesData geminiApiKey) l log.

(** How section C of the loop prices a valid row, [log] being the requests
    sent before. *)
Definition pricedAt (env : Env) (ratesData : list Rate.t)
  (geminiApiKey : value) (log : list Request) (item : Item.t) : Prop :=
  Item.total item
  = option_map (fun r => PrimFloat.mul r (Item.quantity item)) (Item.rate item)
  /\
  match fuzzyMatch (Item.description item) (Item.unit item) ratesData with
  | Return (Some best, S _) =>
      Item.rate item = Some (parseFloat (Rate.rate_value best)) /\
      Item.isAiSuggestion item = false /\ Item.source item = "Database"
  | Return _ =>
      match fst (advice env geminiApiKey log item) with
      | Return (Some suggested) =>
          Item.rate item = Some suggested /\
          Item.isAiSuggestion item = true /\ Item.source item = "AI Estimate"
      | Return None =>
          Item.rate item = None /\
          Item.isAiSuggestion item = false /\ Item.source item = "Manual"
      | Throw _ => False
      end
  | Throw _ => False
  end.

(** The state of the loop after an item is pushed. *)
Definition push (st : LoopState) (item : Item.t) : LoopState :=
  {| items := items st ++ [item];
     runningTotal := addTotal (runningTotal st) (Item.total item) |}.

Definition itemOfRow (row : Row) (item : Item.t) : Prop :=
  Item.item_no item = rowItemNo row /\
  Item.description item = rowDescription row /\
  Item.quantity item = rowQuantity row /\
  Item.unit item = rowUnit row.

(** The request the adapter sends for a description and a unit. *)
Definition requestFor (description unit : string) (geminiApiKey : value)
  : Request :=
  {| req_url := geminiApiUrl geminiApiKey;
     req_prompt := prompt description unit |}.

(** The service's answer to [request], sent after the requests of [log],
    is well formed and suggests [rate]: a response whose text is a
    non-empty string that, cleaned of its code fences, parses as JSON to
    an object whose [rate] is a number. *)
Definition suggests (env : Env) (log : list Request) (request : Request)
  (rate : float) : Prop :=
  exists data text parsed,
    axios_post env (List.length log) (req_url request) (req_prompt request)
    = NetResponse data /\
    rawTextOf data = Some (JStr text) /\
    text <> EmptyString /\
    JSON_parse env (cleanReply text) = Some parsed /\
    Json.prop "rate" (Some parsed) = Some (JNum rate).

(** *** The matcher as the specification words it *)

(** Equality of two units, case ignored. *)
Definition sameUnit (a b : string) : bool :=
  String.eqb (toLowerCase a) (toLowerCase b).

(** The candidates: the catalog entries whose unit is the row's, case
    ignored, in catalog order. *)
Definition candidates (unit : string) (ratesData : list Rate.t)
  : list Rate.t :=
  filter
    (fun rate =>
       match Rate.unit rate with
       | VStr u => sameUnit u unit
       | _ => false
       end)
    ratesData.

(** How many tokens of the set [a] are also in [b]. *)
Definition shared (a b : list string) : nat :=
  List.length (filter (has b) a).

(** Twice the tokens shared with the name plus the tokens shared with the
    keywords. *)
Definition score (descriptionTokens : list string) (rate : Rate.t) : nat :=
  2 * shared descriptionTokens (tokenize (Rate.item_name rate))
  + 1 * shared descriptionTokens (tokenize (Rate.keywords rate)).

(** [result] is the outcome of the selection over the candidates [l]: the
    first candidate of strictly highest score when that score is positive,
    no match when every score is 0 (or there is no candidate). *)
Definition selects (sc : Rate.t -> nat) (l : list Rate.t)
  (result : option Rate.t * nat) : Prop :=
  match result with
  | (Some winner, highest) =>
      exists before after,
        l = (before ++ winner :: after)%list /\
        highest = sc winner /\ 0 < highest /\
        Forall (fun c => sc c < highest) before /\
        Forall (fun c => sc c <= highest) after
  | (None, highest) =>
      highest = 0 /\ Forall (fun c => sc c = 0) l
  end.

(** *** The item store *)

(** The stored rows of a batch: the five persisted fields of each item, in
    order, with serial ids from [next]. *)
Fixpoint rowsFrom (next : Z) (batch : list Item.t) : list Db.BoqItem :=
  match batch with
  | [] => []
  | item :: rest =>
      {| Db.id := next;
         Db.description := Item.description item;
         Db.quantity := Item.quantity item;
         Db.unit := Item.unit item;
         Db.rate := Item.rate item;
         Db.total := Item.total item |} :: rowsFrom (next + 1) rest
  end.

(** The effect of an item's insert on the tables. *)
Definition insertItem (t : Db.Tables) (item : Item.t) : Db.Tables :=
  Db.insert (Item.description item) (Item.quantity item) (Item.unit item)
    (Item.rate item) (Item.total item) t.

(** The tables once the item store holds exactly the batch. *)
Definition replaced (t : Db.Tables) (batch : list Item.t) : Db.Tables :=
  {| Db.rates := Db.rates t;
     Db.boq_items := rowsFrom 1 batch;
     Db.boq_items_id_seq := Z.of_nat (List.length batch);
     Db.others := Db.others t |}.

(** The insert of some item of the batch is refused; [first] is the number
    of statements issued before the first insert. *)
Definition someInsertFails (faulty : nat -> Db.Statement -> bool)
  (first : nat) (batch : list Item.t) : Prop :=
  exists k item,
    nth_error batch k = Some item /\
    faulty (first + k) (Routes.insertOf item) = true.

(** A statement of the handler's [try] block is refused: the select, the
    begin, the truncate, an insert of the batch, or the commit; [c] is the
    client the handler got and [parsed] what [parseAndMatchBOQ] settled
    with. *)
Definition refused (faulty : nat -> Db.Statement -> bool) (c : Db.Client)
  (parsed : completion EstimationResult) : Prop :=
  faulty (Db.issued c) Db.SelectRates = true \/
  faulty (Db.issued c + 1) Db.Begin = true \/
  faulty (Db.issued c + 2) Db.TruncateBoqItems = true \/
  exists result,
    parsed = Return result /\
    (someInsertFails faulty (Db.issued c + 3) (processedItems result) \/
     faulty (Db.issued c + 3 + List.length (processedItems result)) Db.Commit
     = true).

(** Only inserts can be refused. *)
Definition onlyInsertsFail (faulty : nat -> Db.Statement -> bool) : Prop :=
  forall n stmt,
    faulty n stmt = true -> exists d q u r t, stmt = Db.InsertBoqItem d q u r t.

(** Every [unit] of the catalog is a string, as the data model has it. *)
Definition unitsAreStrings (ratesData : list Rate.t) : Prop :=
  Forall (fun rate => exists u, Rate.unit rate = VStr u) ratesData.

End Props.

(** ** Part VII. Concrete data *)

Module Examples.
Import Js Boq.

Definition header : Row :=
  [VStr "Item No."; VStr "Description"; VStr "Quantity"; VStr "Unit"].

Definition dataRow (no description : string) (quantity : float)
  (unit : string) : Row :=
  [VStr no; VStr description; VNum quantity; VStr unit].

(** The reply body of the service carrying [text] as its first part. *)
Definition replyWith (text : string) : NetOutcome :=
  NetResponse
    (Some (JObj [("candidates",
                  JArr [JObj [("content",
                               JObj [("parts",
                                      JArr [JObj [("text", JStr text)]])])]])])).

Definition rate15000 : string :=
  "{" ++ quote ++ "rate" ++ quote ++ ": 15000}".

(** [JSON.parse] on the two texts the examples use. *)
Definition parseKnown (s : string) : option json :=
  if String.eqb s rate15000 then Some (JObj [("rate", JNum 15000)])
  else if String.eqb s "[]" then Some (JArr [])
  else None.

(** An environment: what the decoder yields for every file, what the
    service answers to every request. *)
Definition envOf (decoded : completion (list Sheet)) (answer : NetOutcome)
  : Env :=
  {| xlsx_read := fun _ => decoded;
     axios_post := fun _ _ _ => answer;
     JSON_parse := parseKnown |}.

Definition fencedReply : NetOutcome :=
  replyWith (fence ++ "json" ++ newline ++ rate15000 ++ newline ++ fence).

Definition brickwork : Rate.t :=
  {| Rate.id := 1; Rate.item_name := VStr "Brickwork"; Rate.unit := VStr "M2";
     Rate.rate_value := VStr "45.50";
     Rate.keywords := VStr "brick wall masonry" |}.

Definition plaster : Rate.t :=
  {| Rate.id := 2; Rate.item_name := VStr "Plaster"; Rate.unit := VStr "m2";
     Rate.rate_value := VStr "1.00"; Rate.keywords := VNull |}.

Definition blockwork : Rate.t :=
  {| Rate.id := 3; Rate.item_name := VStr "Brick blockwork";
     Rate.unit := VStr "m2"; Rate.rate_value := VStr "60.00";
     Rate.keywords := VStr "masonry" |}.

(** A record whose [unit] column is [NULL]. *)
Definition unitless : Rate.t :=
  {| Rate.id := 4; Rate.item_name := VStr "Excavation"; Rate.unit := VNull;
     Rate.rate_value := VStr "12.00"; Rate.keywords := VNull |}.

Definition tenth : float := PrimFloat.div 1 10.
Definition fifth : float := PrimFloat.div 2 10.
Definition threeTenths : float := PrimFloat.div 3 10.

Definition plasterRow (no : string) (quantity : float) : Row :=
  dataRow no "Cement plaster to walls" quantity "m2".

Definition sheetAscending : Sheet :=
  [header; plasterRow "1" tenth; plasterRow "2" fifth;
   plasterRow "3" threeTenths].

Definition sheetDescending : Sheet :=
  [header; plasterRow "3" threeTenths; plasterRow "2" fifth;
   plasterRow "1" tenth].

(** Scenarios A to C of the specification, a row without description, an
    empty row, and a row with a negative quantity. *)
Definition sheetMixed : Sheet :=
  [header;
   dataRow "1" "Brick Masonry Walls" 850 " m2 ";
   dataRow "2" "Install solar panel array" 10 "unit";
   dataRow "3" "" 4 "m2";
   [];
   dataRow "5" "Brick wall demolition" (-5) "m2"].

Definition quiet : list Request := [].

Definition noFault : nat -> Db.Statement -> bool := fun _ _ => false.

(** The check constraint [quantity >= 0] of [boq_items]. *)
Definition rejectNegative : nat -> Db.Statement -> bool :=
  fun _ stmt =>
    match stmt with
    | Db.InsertBoqItem _ quantity _ _ _ => PrimFloat.ltb quantity 0
    | _ => false
    end.

Definition stored : Db.Tables :=
  {| Db.rates := [brickwork; plaster];
     Db.boq_items :=
       [ {| Db.id := 1; Db.description := "Earlier item"; Db.quantity := 2;
            Db.unit := "m3"; Db.rate := Some 10%float;
            Db.total := Some 20%float |} ];
     Db.boq_items_id_seq := 1;
     Db.others := [("projects", [[VNum 1; VStr "Tower"]])] |}.

Definition pooled : Db.Client :=
  {| Db.committed := stored; Db.transaction := None; Db.issued := 0 |}.

(** Two requests queued at time 0 on the shared limiter: the first fails
    at once, the cooldown passes, the timer fires. *)
Definition twoRequests : RateLimiter.Loop (option float) :=
  RateLimiter.timeout 4500
    (RateLimiter.tick 4500
       (RateLimiter.resume 1 (Throw NetworkError)
          (RateLimiter.add 2
             (RateLimiter.add 1
                (RateLimiter.boot (option float) RateLimiter.cooldown 0))))).

End Examples.

(** ** Part VII-A. More of the JavaScript library *)

Module JsLib.
Import Js.

(** [x || 0] on a number: [NaN], [0] and [-0] give [0]. *)
Definition orZero (x : float) : float :=
  if is_nan x || is_zero x then zero else x.

(** [Math.round]: the nearest integer, a tie going up; an argument in
    [[-0.5, 0)] gives [-0]. *)
Definition mathRound (x : float) : float :=
  match Prim2SF x with
  | S754_finite neg m e =>
      if (0 <=? e)%Z then x
      else
        let den := (2 ^ (- e))%Z in
        let num := (if neg then Z.neg m else Z.pos m) in
        let r := ((2 * num + den) / (2 * den))%Z in
        if (r =? 0)%Z then (if neg then neg_zero else zero)
        else roundDecimal (r <? 0)%Z (Z.abs r) 0
  | _ => x
  end.

(** The number of elements of an array, as a number. *)
Definition lengthOf {X} (l : list X) : float :=
  roundDecimal false (Z.of_nat (List.length l)) 0.

(** The classes of SameValueZero on primitive values: a number is its
    value, the two zeros being one and [NaN] being itself. *)
Inductive key : Type :=
| KUndefined
| KNull
| KBool (b : bool)
| KNum (x : spec_float)
| KStr (s : string).

Definition keyOf (v : value) : key :=
  match v with
  | VUndefined => KUndefined
  | VNull => KNull
  | VBool b => KBool b
  | VNum x =>
      KNum (match Prim2SF x with
            | S754_zero _ => S754_zero false
            | f => f
            end)
  | VStr s => KStr s
  end.

Definition sf_eqb (a b : spec_float) : bool :=
  match a, b with
  | S754_zero s, S754_zero s' => Bool.eqb s s'
  | S754_infinity s, S754_infinity s' => Bool.eqb s s'
  | S754_nan, S754_nan => true
  | S754_finite s m e, S754_finite s' m' e' =>
      Bool.eqb s s' && Pos.eqb m m' && Z.eqb e e'
  | _, _ => false
  end.

Definition key_eqb (a b : key) : bool :=
  match a, b with
  | KUndefined, KUndefined => true
  | KNull, KNull => true
  | KBool x, KBool y => Bool.eqb x y
  | KNum x, KNum y => sf_eqb x y
  | KStr s, KStr t => String.eqb s t
  | _, _ => false
  end.

Definition sameValueZero (a b : value) : bool := key_eqb (keyOf a) (keyOf b).

(** A [Map] with primitive keys and number values: its entries in
    insertion order.  [set] keeps the place and the key of an entry that
    exists, and stores [-0] as [0]. *)
Definition JsMap : Type := list (value * float).

Definition storedKey (k : value) : value :=
  match k with
  | VNum x =>
      match Prim2SF x with
      | S754_zero _ => VNum zero
      | _ => k
      end
  | _ => k
  end.

Fixpoint mapGet (k : value) (m : JsMap) : option float :=
  match m with
  | [] => None
  | (k', v) :: rest => if sameValueZero k k' then Some v else mapGet k rest
  end.

Fixpoint mapSet (k : value) (v : float) (m : JsMap) : JsMap :=
  match m with
  | [] => [(storedKey k, v)]
  | (k', v') :: rest =>
      if sameValueZero k k' then (k', v) :: rest
      else (k', v') :: mapSet k v rest
  end.

End JsLib.

(** ** Part VII-B. [utils/projectFinancials.js] *)

(** A row of [project_costs] as the driver returns it. *)
Module Cost.
Record t : Type := {
  project_id : Js.value;
  cost_type : Js.value;
  amount : Js.value
}.
End Cost.

Module Financials.
Import Js JsLib.

(** The reducer of [calculateActualsByProject]. *)
Definition addCost (acc : JsMap) (cost : Cost.t) : JsMap :=
  let projectId := Cost.project_id cost in
  let amount := orZero (parseFloat (Cost.amount cost)) in
  let sofar :=
    match mapGet projectId acc with
    | Some v => orZero v
    | None => zero
    end in
  mapSet projectId (PrimFloat.add sofar amount) acc.

Definition calculateActualsByProject (costs : list Cost.t) : JsMap :=
  fold_left addCost costs [].

(** What a cost adds to the total of its project: its amount as
    [parseFloat] reads it, an amount it cannot read counting as [0]. *)
Definition amountOf (cost : Cost.t) : float :=
  orZero (parseFloat (Cost.amount cost)).

(** The costs recorded for a project. *)
Definition costsOf (projectId : value) (costs : list Cost.t) : list Cost.t :=
  filter (fun cost => sameValueZero projectId (Cost.project_id cost)) costs.

(** The amounts of some costs added up from left to right, a running total
    that is [NaN] or zero being taken up again at [0]. *)
Definition totalFrom (sum : float) (costs : list Cost.t) : float :=
  fold_left (fun sum cost => PrimFloat.add (orZero sum) (amountOf cost))
    costs sum.

(** The distinct keys of a list, each at the place of its first
    occurrence. *)
Definition distinctKeys (keys : list key) : list key :=
  fold_left
    (fun seen k => if existsb (key_eqb k) seen then seen else (seen ++ [k])%list)
    keys [].

(** The keys of a [Map], in iteration order. *)
Definition keysOf (m : JsMap) : list key := map (fun entry => keyOf (fst entry)) m.

End Financials.

(** ** Part VII-C. [utils/projectAnalytics.js] *)

(** A row of [projects] as the driver returns it: a [DATE] column is a
    [Date] object, here its time value in milliseconds ([NaN] for an
    invalid date), or [null], here [None]. *)
Module Project.
Record t : Type := {
  status : Js.value;
  budget : Js.value;
  start_date : option float;
  end_date : option float
}.
End Project.

Module Analytics.
Import Js JsLib.

Record Stats : Type := {
  activeProjects : nat;
  totalBudget : float;
  projectsOverdue : nat;
  averageDuration : float
}.

Definition activeStatuses : list string :=
  ["Planning"; "In Progress"; "On Hold"].

(** [activeStatuses.includes(p.status)] *)
Definition isActive (p : Project.t) : bool :=
  existsb (sameValueZero (Project.status p)) (map VStr activeStatuses).

(** [p.budget || 0] *)
Definition orNumberZero (v : value) : value :=
  if truthy v then v else VNum zero.

(** The overdue test of an active project against [today]. *)
Definition isOverdue (today : float) (p : Project.t) : bool :=
  match Project.end_date p with
  | None => false
  | Some endDate => PrimFloat.ltb endDate today
  end.

Definition hasBothDates (p : Project.t) : bool :=
  match Project.start_date p, Project.end_date p with
  | Some _, Some _ => true
  | _, _ => false
  end.

(** The duration in days the second reducer adds. *)
Definition durationOf (p : Project.t) : float :=
  match Project.start_date p, Project.end_date p with
  | Some start, Some finish =>
      PrimFloat.div (PrimFloat.sub finish start) 86400000
  | _, _ => nan
  end.

(** [calculateProjectStats(projects)]; [today] is the time value of the
    start of the current day, which the function takes from the clock. *)
Definition calculateProjectStats (today : float) (projects : list Project.t)
  : Stats :=
  let active := filter isActive projects in
  let budgetTotal :=
    fold_left
      (fun sum p => PrimFloat.add sum (parseFloat (orNumberZero (Project.budget p))))
      active zero in
  let overdue := List.length (filter (isOverdue today) active) in
  let dated := filter hasBothDates projects in
  let totalDuration :=
    fold_left (fun sum p => PrimFloat.add sum (durationOf p)) dated zero in
  let average :=
    if (0 <? List.length dated)%nat
    then mathRound (PrimFloat.div totalDuration (lengthOf dated))
    else zero in
  {| activeProjects := List.length active;
     totalBudget := budgetTotal;
     projectsOverdue := overdue;
     averageDuration := average |}.

End Analytics.

(** ** Part VII-D. More vocabulary *)

Module MoreProps.
Import Js Boq Props.

(** The characters of [[a-z0-9_]]. *)
Definition isLowerWordChar (c : ascii) : bool :=
  isDigit c || in_range 97 122 c || (code c =? 95)%N.

Fixpoint allChars (p : ascii -> bool) (s : string) : bool :=
  match s with
  | EmptyString => true
  | String c r => p c && allChars p r
  end.

(** What [tokenize] keeps of a text before it splits it: the lower-case
    form without the characters that are neither word characters nor
    white space. *)
Definition normalized (s : string) : string :=
  sfilter (fun c => isWordChar c || isWhiteSpace c) (toLowerCase s).

(** The first and the last character of a string are not white space. *)
Definition startsClean (s : string) : bool :=
  match s with
  | EmptyString => true
  | String c _ => negb (isWhiteSpace c)
  end.

Fixpoint endsClean (s : string) : bool :=
  match s with
  | EmptyString => true
  | String c EmptyString => negb (isWhiteSpace c)
  | String _ r => endsClean r
  end.

(** The string has no backtick. *)
Definition noBacktick (s : string) : bool :=
  allChars (fun c => negb (code c =? 96)%N) s.


(** The item was priced from the catalog. *)
Definition fromDatabase (item : Item.t) : bool :=
  String.eqb (Item.source item) "Database".


(** The requests a run sends for its items: one for each item that was
    not priced from the catalog, in order. *)
Definition requestsFor (geminiApiKey : value) (l : list Item.t)
  : list Request :=
  map
    (fun item =>
       requestFor (Item.description item) (Item.unit item) geminiApiKey)
    (filter (fun item => negb (fromDatabase item)) l).

End MoreProps.

(** Turns of the event loop around the limiter in which no task settles. *)
Module LimiterRuns.
Import RateLimiter.

Inductive waitingStep (A : Type) : Loop A -> Loop A -> Prop :=
| wait_add ticket l :
    waitingStep l (add ticket l)
| wait_timeout due l :
    In due (timers l) -> (due <= now l)%Z ->
    waitingStep l (timeout due l)
| wait_tick dt l :
    (0 <= dt)%Z ->
    waitingStep l (tick dt l).

Inductive waitingRun (A : Type) : Loop A -> Loop A -> Prop :=
| run_done l : waitingRun l l
| run_more l l' l'' :
    waitingRun l l' -> waitingStep l' l'' -> waitingRun l l''.

End LimiterRuns.

(** ** Part VII-E. More concrete data *)

Module MoreExamples.
Import Js JsLib.

(** Midnight UTC of 1 January, 31 January and 1 June 2024. *)
Definition jan1 : float := 1704067200000.
Definition jan31 : float := 1706659200000.
Definition jun1 : float := 1717200000000.

Definition planned : Project.t :=
  {| Project.status := VStr "Planning"; Project.budget := VStr "100000.00";
     Project.start_date := Some jan1; Project.end_date := Some jan31 |}.

Definition finished : Project.t :=
  {| Project.status := VStr "Completed"; Project.budget := VStr "50000.00";
     Project.start_date := Some jan1; Project.end_date := Some jan31 |}.

Definition undated : Project.t :=
  {| Project.status := VStr "In Progress"; Project.budget := VNull;
     Project.start_date := None; Project.end_date := None |}.


End MoreExamples.

(** ** Part VIII. Facts about the row loop *)

Module LoopFacts.
Local Open Scope list_scope.
Import Js Boq Props.

Lemma getAiRateSuggestion_returns env description unit key log :
  exists suggestion log',
    getAiRateSuggestion env description unit key log
    = (Return suggestion, log').
Proof.
  unfold getAiRateSuggestion, tryCatch, adviseBody, ret.
  repeat match goal with
         | |- context [if ?b then _ else _] => destruct b
         | |- context [match ?x with _ => _ end] => destruct x
         end; eauto.
Qed.

Lemma sumFrom_app acc l item :
  sumFrom acc (l ++ [item]) = addTotal (sumFrom acc l) (Item.total item).
Proof. unfold sumFrom. now rewrite fold_left_app. Qed.

(** One iteration: it skips an invalid row, throws what the matcher
    throws, or pushes the row's priced item. *)
Lemma processRow_cases env ratesData key st row log :
  (validRow row = false /\
   processRow env ratesData key st row log = (Return st, log))
  \/
  (validRow row = true /\
   exists e,
     fuzzyMatch (rowDescription row) (rowUnit row) ratesData = Throw e /\
     processRow env ratesData key st row log = (Throw e, log))
  \/
  (validRow row = true /\
   exists item,
     itemOfRow row item /\ pricedAt env ratesData key log item /\
     processRow env ratesData key st row log
     = (Return (push st item), logAfter env ratesData key log item)).
Proof.
  unfold processRow, validRow.
  fold (rowDescription row) (rowQuantity row) (rowUnit row) (rowItemNo row).
  destruct (isEmpty (rowDescription row) || isNaN (rowQuantity row)
            || isEmpty (rowUnit row)) eqn:Hskip; simpl.
  - left. auto.
  - right.
    unfold bind, lift.
    destruct (fuzzyMatch (rowDescription row) (rowUnit row) ratesData)
      as [[bestMatch highestScore]|e] eqn:Hmatch.
    2:{ left. split; [reflexivity|]. exists e. auto. }
    right. split; [reflexivity|].
    assert (Hadv := getAiRateSuggestion_returns env (rowDescription row)
                      (rowUnit row) key log).
    destruct Hadv as (suggestion & log' & Hadv).
    unfold aiLimiter_add.
    destruct bestMatch as [best|]; [destruct highestScore as [|n]|]; simpl;
      rewrite ?Hadv; try destruct suggestion as [r|]; simpl;
      match goal with
      | |- context [ret {| items := _ ++ [?it]; runningTotal := _ |} _] =>
          exists it
      end;
      (split; [repeat split|split]);
      unfold pricedAt, logAfter, isHit, advice, push, ret; simpl;
      rewrite ?Hmatch; simpl; rewrite ?Hadv; simpl; auto.
Qed.


(** The whole loop: it throws what the matcher throws on some valid row,
    or pushes the priced items of the valid rows, in row order. *)
Lemma processRows_spec env ratesData key rows :
  forall st log,
    match processRows env ratesData key rows st log with
    | (Return st', log') =>
        exists new,
          items st' = items st ++ new /\
          runningTotal st' = sumFrom (runningTotal st) new /\
          Forall2 itemOfRow (filter validRow rows) new /\
          Forall2 (pricedAt env ratesData key)
            (logsBefore env ratesData key log new) new /\
          log' = logAtEnd env ratesData key log new
    | (Throw e, _) =>
        exists row,
          In row rows /\ validRow row = true /\
          fuzzyMatch (rowDescription row) (rowUnit row) ratesData = Throw e
    end.
Proof.
  induction rows as [|row rest IH]; intros st log; simpl.
  - exists []. rewrite app_nil_r. repeat split; constructor.
  - unfold bind.
    destruct (processRow_cases env ratesData key st row log)
      as [[Hv Hrow]|[[Hv (e & Hm & Hrow)]|[Hv (item & Hfields & Hpriced & Hrow)]]];
      rewrite Hrow, ?Hv.
    + specialize (IH st log).
      destruct (processRows env ratesData key rest st log) as [[st'|e] log'].
      * exact IH.
      * destruct IH as (r & Hin & Hr). exists r. split; [now right|exact Hr].
    + exists row. split; [now left|]. split; assumption.
    + specialize (IH (push st item) (logAfter env ratesData key log item)).
      destruct (processRows env ratesData key rest (push st item)
                  (logAfter env ratesData key log item)) as [[st'|e] log'].
      * destruct IH as (new & Hitems & Htotal & Hrows & Hprices & Hlog).
        exists (item :: new). simpl in Hitems, Htotal.
        rewrite <- app_assoc in Hitems. simpl in Hitems.
        repeat split; try assumption; simpl.
        -- constructor; assumption.
        -- constructor; assumption.
      * destruct IH as (r & Hin & Hr). exists r. split; [now right|exact Hr].
Qed.

Lemma relevantRates_strings unit ratesData :
  unitsAreStrings ratesData ->
  exists relevant, relevantRates unit ratesData = Return relevant.
Proof.
  induction 1 as [|rate rest [u Hu] _ [relevant IH]]; simpl.
  - eauto.
  - unfold unitMatches. rewrite Hu, IH. eauto.
Qed.

Lemma fuzzyMatch_strings description unit ratesData :
  unitsAreStrings ratesData ->
  exists result, fuzzyMatch description unit ratesData = Return result.
Proof.
  intros H. unfold fuzzyMatch.
  destruct (relevantRates_strings unit H) as [relevant ->].
  destruct (0 <? List.length relevant)%nat; eauto.
Qed.

(** With a well-formed catalog the loop completes. *)
Lemma processRows_strings env ratesData key rows st log :
  unitsAreStrings ratesData ->
  exists st' log',
    processRows env ratesData key rows st log = (Return st', log').
Proof.
  intros H.
  assert (Hspec := processRows_spec env ratesData key rows st log).
  destruct (processRows env ratesData key rows st log) as [[st'|e] log'].
  - eauto.
  - destruct Hspec as (row & _ & _ & Hthrow).
    destruct (fuzzyMatch_strings (rowDescription row) (rowUnit row) H)
      as [result Hresult].
    congruence.
Qed.

End LoopFacts.

(** ** Part IX. The orchestrator's contract *)

Module OrchestratorFacts.
Import Js Boq Props LoopFacts.
Local Open Scope list_scope.

(** The function by cases: the decoder throws; the loop throws; the loop
    completes. *)
Lemma parseAndMatchBOQ_cases env fileBuffer ratesData key log :
  (exists e,
     xlsx_read env fileBuffer = Throw e /\
     estimate env fileBuffer ratesData key log = (Throw e, log) /\
     parseAndMatchBOQ env fileBuffer ratesData key log
     = (Return emptyResult, log))
  \/
  (exists sheets,
     xlsx_read env fileBuffer = Return sheets /\
     estimate env fileBuffer ratesData key log
     = processRows env ratesData key (skipn 1 (firstSheet sheets)) initial log
     /\
     match processRows env ratesData key (skipn 1 (firstSheet sheets))
             initial log with
     | (Return st, log') =>
         parseAndMatchBOQ env fileBuffer ratesData key log
         = (Return (resultOf st), log')
     | (Throw _, log') =>
         parseAndMatchBOQ env fileBuffer ratesData key log
         = (Return emptyResult, log')
     end).
Proof.
  unfold parseAndMatchBOQ, estimate, tryCatch, bind, lift, ret.
  destruct (xlsx_read env fileBuffer) as [sheets|e].
  - right. exists sheets. split; [reflexivity|]. split; [reflexivity|].
    destruct (processRows env ratesData key (skipn 1 (firstSheet sheets))
                initial log) as [[st|e] log']; reflexivity.
  - left. exists e. auto.
Qed.

(** The promise never rejects. *)
Lemma parseAndMatchBOQ_returns env fileBuffer ratesData key log :
  exists result log',
    parseAndMatchBOQ env fileBuffer ratesData key log = (Return result, log').
Proof.
  destruct (parseAndMatchBOQ_cases env fileBuffer ratesData key log)
    as [(e & _ & _ & Hrun)|(sheets & _ & _ & Hrun)]; eauto.
  destruct (processRows env ratesData key (skipn 1 (firstSheet sheets))
              initial log) as [[st|e] log']; eauto.
Qed.

(** What a run returns: nothing after a throw, else the priced items of
    the valid data rows. *)
Lemma parseAndMatchBOQ_spec env fileBuffer ratesData key log result log' :
  parseAndMatchBOQ env fileBuffer ratesData key log = (Return result, log') ->
  projectTotal result = sumTotals (processedItems result) /\
  Forall2 (pricedAt env ratesData key)
    (logsBefore env ratesData key log (processedItems result))
    (processedItems result).
Proof.
  intros Hrun.
  destruct (parseAndMatchBOQ_cases env fileBuffer ratesData key log)
    as [(e & _ & _ & Hempty)|(sheets & _ & _ & Hloop)].
  - rewrite Hempty in Hrun. inversion Hrun; subst.
    split; [reflexivity|constructor].
  - assert (Hspec := processRows_spec env ratesData key
                       (skipn 1 (firstSheet sheets)) initial log).
    destruct (processRows env ratesData key (skipn 1 (firstSheet sheets))
                initial log) as [[st|e] log''].
    + rewrite Hloop in Hrun. inversion Hrun; subst.
      destruct Hspec as (new & Hitems & Htotal & _ & Hpriced & _).
      simpl in Hitems, Htotal |- *. rewrite Hitems. split; assumption.
    + rewrite Hloop in Hrun. inversion Hrun; subst.
      split; [reflexivity|constructor].
Qed.

End OrchestratorFacts.

(** ** Part X. The orchestrator: totals, provenance, parsing, failures *)

Section Orchestrator.
Import Js Boq Props LoopFacts OrchestratorFacts Examples.
Local Open Scope list_scope.

(** C1 (as amended). For every workbook, catalog and API key, the result
    [parseAndMatchBOQ] resolves with has [projectTotal] equal to the sum of
    the non-null [total]s of the emitted items (a null total contributes
    nothing), added in binary64 arithmetic from 0 in the order of the
    rows. *)
Theorem projectTotal_is_sum_in_row_order
  env fileBuffer ratesData key log result log' :
  parseAndMatchBOQ env fileBuffer ratesData key log = (Return result, log') ->
  projectTotal result = sumTotals (processedItems result).
Proof.
  intros Hrun. exact (proj1 (parseAndMatchBOQ_spec _ _ _ _ _ Hrun)).
Qed.

(** The sum on the ascending sheet: 0.1 + 0.2 + 0.3. *)
Lemma projectTotal_is_sum_in_row_order_witness :
  exists result log',
    parseAndMatchBOQ (envOf (Return [sheetAscending]) NetFail) []
      [brickwork; plaster] VUndefined quiet = (Return result, log') /\
    List.length (processedItems result) = 3%nat /\
    projectTotal result = sumTotals (processedItems result).
Proof.
  eexists. eexists. split; [vm_compute; reflexivity|].
  split; [reflexivity|].
  apply (@projectTotal_is_sum_in_row_order
           (envOf (Return [sheetAscending]) NetFail) []
           [brickwork; plaster] VUndefined quiet _ quiet).
  vm_compute. reflexivity.
Defined.

(** C1 (as stated) fails: the same three rows in two orders give two
    different project totals, and summing the totals of one result in the
    reverse order does not give its [projectTotal]. *)
Lemma projectTotal_depends_on_row_order :
  exists up down log1 log2,
    parseAndMatchBOQ (envOf (Return [sheetAscending]) NetFail) []
      [brickwork; plaster] VUndefined quiet = (Return up, log1) /\
    parseAndMatchBOQ (envOf (Return [sheetDescending]) NetFail) []
      [brickwork; plaster] VUndefined quiet = (Return down, log2) /\
    processedItems down = rev (processedItems up) /\
    PrimFloat.ltb (projectTotal down) (projectTotal up) = true /\
    PrimFloat.ltb (sumTotals (rev (processedItems up))) (projectTotal up)
    = true.
Proof.
  eexists. eexists. eexists. eexists.
  split; [vm_compute; reflexivity|].
  split; [vm_compute; reflexivity|].
  split; [reflexivity|].
  split; vm_compute; reflexivity.
Qed.

(** The provenance of one priced item. *)
Lemma pricedAt_provenance env ratesData key log item :
  pricedAt env ratesData key log item ->
  (Item.rate item <> None <-> rateFound env ratesData key log item) /\
  (~ rateFound env ratesData key log item ->
   Item.rate item = None /\ Item.total item = None /\
   Item.isAiSuggestion item = false /\ Item.source item = "Manual"%string).
Proof.
  unfold pricedAt, rateFound, advised, isHit.
  intros [Htotal Hcase].
  destruct (fuzzyMatch (Item.description item) (Item.unit item) ratesData)
    as [[bestMatch score]|e]; [|contradiction].
  assert (Hmiss :
            match fst (advice env key log item) with
            | Return (Some suggested) =>
                Item.rate item = Some suggested /\
                Item.isAiSuggestion item = true /\
                Item.source item = "AI Estimate"%string
            | Return None =>
                Item.rate item = None /\
                Item.isAiSuggestion item = false /\
                Item.source item = "Manual"%string
            | Throw _ => False
            end ->
            match bestMatch with
            | Some _ => (0 <? score)%nat
            | None => false
            end = false ->
            (Item.rate item <> None <->
             false = true \/
             false = false /\
             (exists suggested,
                 fst (advice env key log item) = Return (Some suggested))) /\
            (~ (false = true \/
                false = false /\
                (exists suggested,
                    fst (advice env key log item) = Return (Some suggested))) ->
             Item.rate item = None /\ Item.total item = None /\
             Item.isAiSuggestion item = false /\
             Item.source item = "Manual"%string)).
  { intros Hadv _.
    destruct (fst (advice env key log item)) as [[suggested|]|e];
      [| |contradiction]; destruct Hadv as (Hrate & Hai & Hsrc).
    - split.
      + split; [intros _; right; split; [reflexivity|now exists suggested]|].
        intros _. rewrite Hrate. discriminate.
      + intros Hno. exfalso. apply Hno. right.
        split; [reflexivity|now exists suggested].
    - split.
      + split.
        * intros Hsome. exfalso. now apply Hsome.
        * intros [Habs|[_ [r Habs]]]; discriminate.
      + intros _. rewrite Hrate in Htotal. simpl in Htotal. auto. }
  destruct bestMatch as [best|]; [destruct score as [|n]|].
  - apply Hmiss; [exact Hcase|reflexivity].
  - simpl. destruct Hcase as (Hrate & Hai & Hsrc). split.
    + split; [intros _; now left|]. intros _. rewrite Hrate. discriminate.
    + intros Hno. exfalso. apply Hno. now left.
  - apply Hmiss; [|reflexivity]. destruct score; exact Hcase.
Qed.

(** C2. For every item [parseAndMatchBOQ] produces, the rate is non-null
    if and only if the catalog matched the row with a positive score or,
    the catalog having missed, the advisor returned a suggestion for it; in
    every other case rate and total are null, [isAiSuggestion] is false and
    the source is "Manual".  Each item is read with the log of requests
    sent before its row. *)
Theorem rate_present_iff_matched_or_advised
  env fileBuffer ratesData key log result log' :
  parseAndMatchBOQ env fileBuffer ratesData key log = (Return result, log') ->
  Forall2
    (fun before item =>
       (Item.rate item <> None <-> rateFound env ratesData key before item) /\
       (~ rateFound env ratesData key before item ->
        Item.rate item = None /\ Item.total item = None /\
        Item.isAiSuggestion item = false /\
        Item.source item = "Manual"%string))
    (logsBefore env ratesData key log (processedItems result))
    (processedItems result).
Proof.
  intros Hrun.
  apply Forall2_impl with (R1 := pricedAt env ratesData key).
  - intros before item. apply pricedAt_provenance.
  - exact (proj2 (parseAndMatchBOQ_spec _ _ _ _ _ Hrun)).
Qed.

(** Scenarios A to C in one sheet, with no API key: the brickwork rows are
    priced from the catalog, the solar panels stay "Manual". *)
Lemma rate_present_iff_matched_or_advised_witness :
  exists result log',
    parseAndMatchBOQ (envOf (Return [sheetMixed]) fencedReply) []
      [brickwork; plaster] VUndefined quiet = (Return result, log') /\
    map Item.source (processedItems result)
    = ["Database"; "Manual"; "Database"]%string /\
    Forall2
      (fun before item =>
         (Item.rate item <> None <->
          rateFound (envOf (Return [sheetMixed]) fencedReply)
            [brickwork; plaster] VUndefined before item) /\
         (~ rateFound (envOf (Return [sheetMixed]) fencedReply)
              [brickwork; plaster] VUndefined before item ->
          Item.rate item = None /\ Item.total item = None /\
          Item.isAiSuggestion item = false /\
          Item.source item = "Manual"%string))
      (logsBefore (envOf (Return [sheetMixed]) fencedReply)
         [brickwork; plaster] VUndefined quiet (processedItems result))
      (processedItems result).
Proof.
  eexists. eexists. split; [vm_compute; reflexivity|].
  split; [reflexivity|].
  apply (@rate_present_iff_matched_or_advised
           (envOf (Return [sheetMixed]) fencedReply) []
           [brickwork; plaster] VUndefined quiet _ quiet).
  vm_compute. reflexivity.
Defined.

(** C4 (as amended). For every decoded workbook and every catalog whose
    units are strings, the run completes and its items are, in row order,
    those of the rows after row 0 of the first sheet whose trimmed
    description is non-empty, whose quantity [parseFloat] reads as a
    number (anything but NaN: negative quantities pass), and whose trimmed
    unit is non-empty: one item per such row, carrying the row's fields,
    and nothing (no item, no diagnostic) for any other row. *)
Theorem valid_rows_are_priced_in_order
  env fileBuffer ratesData key log sheets :
  unitsAreStrings ratesData ->
  xlsx_read env fileBuffer = Return sheets ->
  exists result log',
    parseAndMatchBOQ env fileBuffer ratesData key log = (Return result, log')
    /\
    Forall2 itemOfRow (filter validRow (skipn 1 (firstSheet sheets)))
      (processedItems result).
Proof.
  intros Hunits Hread.
  destruct (parseAndMatchBOQ_cases env fileBuffer ratesData key log)
    as [(e & Hthrow & _)|(sheets' & Hread' & _ & Hloop)]; [congruence|].
  assert (sheets' = sheets) by congruence. subst sheets'.
  assert (Hspec := processRows_spec env ratesData key
                     (skipn 1 (firstSheet sheets)) initial log).
  destruct (processRows_strings env key (skipn 1 (firstSheet sheets))
              initial log Hunits) as (st & log' & Hdone).
  rewrite Hdone in Hloop, Hspec.
  destruct Hspec as (new & Hitems & _ & Hrows & _).
  exists (resultOf st), log'. split; [exact Hloop|].
  simpl in Hitems |- *. rewrite Hitems. exact Hrows.
Qed.

Lemma valid_rows_are_priced_in_order_witness :
  exists result log',
    parseAndMatchBOQ (envOf (Return [sheetMixed]) fencedReply) []
      [brickwork; plaster] (VStr "KEY") quiet = (Return result, log') /\
    Forall2 itemOfRow (filter validRow (skipn 1 (firstSheet [sheetMixed])))
      (processedItems result).
Proof.
  apply (@valid_rows_are_priced_in_order
           (envOf (Return [sheetMixed]) fencedReply) []
           [brickwork; plaster] (VStr "KEY") quiet [sheetMixed]).
  - repeat constructor; eexists; reflexivity.
  - reflexivity.
Defined.

(** C4 (as stated) fails: of the five data rows of the mixed sheet the
    specified contract keeps two, rows 1 and 2; the run also prices row 5,
    whose quantity is -5. *)
Lemma negative_quantity_is_priced :
  map validRowAsSpecified (skipn 1 sheetMixed)
  = [true; true; false; false; false] /\
  exists result log',
    parseAndMatchBOQ (envOf (Return [sheetMixed]) fencedReply) []
      [brickwork; plaster] (VStr "KEY") quiet = (Return result, log') /\
    map (fun item => (Item.item_no item, Item.quantity item))
      (processedItems result)
    = [("1"%string, 850%float); ("2"%string, 10%float);
       ("5"%string, (-5)%float)].
Proof.
  split; [vm_compute; reflexivity|].
  eexists. eexists. split; vm_compute; reflexivity.
Qed.

(** C8. When the decoder cannot read the uploaded file,
    [parseAndMatchBOQ] resolves with no item and a project total of 0,
    having sent no request. *)
Theorem unreadable_file_resolves_empty
  env fileBuffer ratesData key log e :
  xlsx_read env fileBuffer = Throw e ->
  parseAndMatchBOQ env fileBuffer ratesData key log
  = (Return {| processedItems := []; projectTotal := zero |}, log).
Proof.
  intros Hread.
  destruct (parseAndMatchBOQ_cases env fileBuffer ratesData key log)
    as [(e' & _ & _ & Hempty)|(sheets & Hread' & _)]; [exact Hempty|congruence].
Qed.

Lemma unreadable_file_resolves_empty_witness :
  parseAndMatchBOQ (envOf (Throw DecodeError) fencedReply) []
    [brickwork; plaster] (VStr "KEY") quiet
  = (Return {| processedItems := []; projectTotal := zero |}, quiet).
Proof.
  apply (@unreadable_file_resolves_empty
           (envOf (Throw DecodeError) fencedReply) []
           [brickwork; plaster] (VStr "KEY") quiet DecodeError).
  reflexivity.
Defined.

Lemma processRows_app env ratesData key done rest :
  forall st log,
    processRows env ratesData key (done ++ rest) st log
    = match processRows env ratesData key done st log with
      | (Return st', log') => processRows env ratesData key rest st' log'
      | (Throw e, log') => (Throw e, log')
      end.
Proof.
  induction done as [|row done IH]; intros st log; simpl.
  - reflexivity.
  - unfold bind.
    destruct (processRow env ratesData key st row log) as [[st'|e] log'].
    + apply IH.
    + reflexivity.
Qed.

(** A catalog record whose unit is not a string makes the matcher throw,
    whatever the row. *)
Lemma relevantRates_throws unit ratesData :
  Exists (fun rate => forall u, Rate.unit rate <> VStr u) ratesData ->
  exists e, relevantRates unit ratesData = Throw e.
Proof.
  induction 1 as [rate rest Hbad|rate rest _ [e IH]]; simpl.
  - unfold unitMatches.
    destruct (Rate.unit rate) as [| | | |u] eqn:Hu; eauto.
    exfalso. now apply (Hbad u).
  - rewrite IH. destruct (unitMatches unit rate); eauto.
Qed.

Lemma relevantRates_throw_any_unit ratesData :
  forall unit unit' e,
    relevantRates unit ratesData = Throw e ->
    relevantRates unit' ratesData = Throw e.
Proof.
  induction ratesData as [|rate rest IH]; intros unit unit' e; simpl.
  - discriminate.
  - unfold unitMatches.
    destruct (Rate.unit rate); try (intros H; exact H);
      destruct (relevantRates unit rest) eqn:Hrest; intros H;
      inversion H; subst; now rewrite (@IH unit unit' _ Hrest).
Qed.

(** In the model the only throw inside the loop is the matcher's, on the
    catalog; it does not depend on the row, so it strikes at the first
    valid row: the state it discards holds no item yet. *)
Lemma throw_comes_before_any_item env ratesData key done st log log1 row e log2 :
  processRows env ratesData key done initial log = (Return st, log1) ->
  processRow env ratesData key st row log1 = (Throw e, log2) ->
  items st = [].
Proof.
  intros Hdone Hrow.
  destruct (processRow_cases env ratesData key st row log1)
    as [[_ H]|[[_ (e' & Hm & H)]|[_ (item & _ & _ & H)]]];
    rewrite H in Hrow; try discriminate.
  assert (Hspec := processRows_spec env ratesData key done initial log).
  rewrite Hdone in Hspec.
  destruct Hspec as (new & Hitems & _ & _ & Hpriced & _).
  destruct new as [|item new]; [exact Hitems|].
  exfalso. inversion Hpriced as [|before item' befores new' Hitem _]; subst.
  destruct Hitem as [_ Hitem]. unfold fuzzyMatch in Hm, Hitem.
  destruct (relevantRates (rowUnit row) ratesData) as [relevant|e0] eqn:Hrel.
  - destruct (0 <? List.length relevant)%nat; discriminate.
  - rewrite (@relevantRates_throw_any_unit ratesData _ (Item.unit item) _ Hrel)
      in Hitem.
    exact Hitem.
Qed.

Lemma filter_none {X} (keep : X -> bool) l :
  filter keep l = [] -> Forall (fun x => keep x = false) l.
Proof.
  induction l as [|x l IH]; simpl; [constructor|].
  destruct (keep x) eqn:Hx; [discriminate|]. intros H. constructor; auto.
Qed.

(** When a row throws, the rows the loop went through before it were all
    skipped: the row is the first valid one, the loop is still in its
    initial state and no request has been sent. *)
Lemma throw_strikes_first_valid_row
  env ratesData key done st log log1 row e log2 :
  processRows env ratesData key done initial log = (Return st, log1) ->
  processRow env ratesData key st row log1 = (Throw e, log2) ->
  Forall (fun skipped => validRow skipped = false) done /\
  validRow row = true /\ st = initial /\ log1 = log /\ log2 = log.
Proof.
  intros Hdone Hrow.
  assert (Hnone := @throw_comes_before_any_item _ _ _ _ _ _ _ _ _ _
                     Hdone Hrow).
  assert (Hspec := processRows_spec env ratesData key done initial log).
  rewrite Hdone in Hspec.
  destruct Hspec as (new & Hitems & Htotal & Hrows & _ & Hlog).
  simpl in Hitems. rewrite Hnone in Hitems. subst new.
  simpl in Htotal. unfold logAtEnd in Hlog. simpl in Hlog. subst log1.
  inversion Hrows as [Hskipped|]. symmetry in Hskipped.
  destruct (processRow_cases env ratesData key st row log)
    as [[_ H]|[[Hv (e' & _ & H)]|[_ (item & _ & _ & H)]]];
    rewrite H in Hrow; try discriminate.
  inversion Hrow; subst.
  repeat split; auto.
  - now apply filter_none.
  - destruct st as [its total]. simpl in *. now subst.
Qed.

(** C9 (as amended). [parseAndMatchBOQ] never rejects.  Whatever the
    workbook, the catalog and the key, it resolves; when its [try] block
    throws it resolves with no item and total 0; a throw inside the loop
    strikes at the first valid row: the rows before it were all skipped, the
    loop is still in its initial state, no row has been priced and no
    request sent, so nothing priced is discarded; and a catalog record
    whose unit is not a string makes every run over a sheet with a valid
    data row end so. *)
Theorem parseAndMatchBOQ_never_rejects env fileBuffer ratesData key log :
  (exists result log',
     parseAndMatchBOQ env fileBuffer ratesData key log
     = (Return result, log'))
  /\
  (forall e log',
     estimate env fileBuffer ratesData key log = (Throw e, log') ->
     parseAndMatchBOQ env fileBuffer ratesData key log
     = (Return emptyResult, log'))
  /\
  (forall sheets done row rest st log1 e log2,
     xlsx_read env fileBuffer = Return sheets ->
     skipn 1 (firstSheet sheets) = done ++ row :: rest ->
     processRows env ratesData key done initial log = (Return st, log1) ->
     processRow env ratesData key st row log1 = (Throw e, log2) ->
     Forall (fun skipped => validRow skipped = false) done /\
     validRow row = true /\
     st = initial /\
     log2 = log /\
     parseAndMatchBOQ env fileBuffer ratesData key log
     = (Return emptyResult, log))
  /\
  (forall sheets,
     xlsx_read env fileBuffer = Return sheets ->
     Exists (fun rate => forall u, Rate.unit rate <> VStr u) ratesData ->
     Exists (fun row => validRow row = true) (skipn 1 (firstSheet sheets)) ->
     fst (parseAndMatchBOQ env fileBuffer ratesData key log)
     = Return emptyResult).
Proof.
  assert (Hcases := parseAndMatchBOQ_cases env fileBuffer ratesData key log).
  split; [apply parseAndMatchBOQ_returns|]. split; [|split].
  - intros e log' Hthrow.
    destruct Hcases as [(e' & _ & Hest & Hrun)|(sheets & _ & Hest & Hrun)].
    + rewrite Hest in Hthrow. inversion Hthrow; subst. exact Hrun.
    + rewrite <- Hest, Hthrow in Hrun. exact Hrun.
  - intros sheets done row rest st log1 e log2 Hread Hrows Hdone Hrow.
    destruct (@throw_strikes_first_valid_row _ _ _ _ _ _ _ _ _ _ Hdone Hrow)
      as (Hskipped & Hvalid & Hst & Hlog1 & Hlog2).
    repeat split; try assumption.
    destruct Hcases as [(e' & Hthrow & _)|(sheets' & Hread' & _ & Hrun)];
      [congruence|].
    assert (sheets' = sheets) by congruence. subst sheets'.
    rewrite Hrows, processRows_app, Hdone in Hrun. simpl in Hrun.
    unfold bind in Hrun. rewrite Hrow, Hlog2 in Hrun. exact Hrun.
  - intros sheets Hread Hbad Hvalid.
    destruct Hcases as [(e' & Hthrow & _)|(sheets' & Hread' & _ & Hrun)];
      [congruence|].
    assert (sheets' = sheets) by congruence. subst sheets'.
    assert (Hspec := processRows_spec env ratesData key
                       (skipn 1 (firstSheet sheets)) initial log).
    destruct (processRows env ratesData key (skipn 1 (firstSheet sheets))
                initial log) as [[st|e] log'].
    + exfalso.
      destruct Hspec as (new & _ & _ & Hrows & Hpriced & _).
      apply Exists_exists in Hvalid. destruct Hvalid as (row & Hin & Hv).
      assert (Hinf : In row (filter validRow (skipn 1 (firstSheet sheets))))
        by (apply filter_In; auto).
      destruct new as [|item new].
      * apply Forall2_length in Hrows.
        destruct (filter validRow (skipn 1 (firstSheet sheets)));
          [contradiction|discriminate].
      * inversion Hpriced as [|before item' befores new' Hitem _]; subst.
        unfold pricedAt in Hitem. destruct Hitem as [_ Hitem].
        unfold fuzzyMatch in Hitem.
        destruct (relevantRates_throws (Item.unit item) Hbad) as [e He].
        rewrite He in Hitem. exact Hitem.
    + rewrite Hrun. reflexivity.
Qed.

(** A catalog with a [NULL] unit after a record that matches the first
    row: the first valid row throws, and the run resolves empty. *)
Lemma parseAndMatchBOQ_never_rejects_witness :
  parseAndMatchBOQ (envOf (Return [sheetMixed]) fencedReply) []
    [brickwork; unitless] (VStr "KEY") quiet
  = (Return emptyResult, quiet).
Proof.
  apply (proj1 (proj2 (proj2
           (@parseAndMatchBOQ_never_rejects
              (envOf (Return [sheetMixed]) fencedReply) []
              [brickwork; unitless] (VStr "KEY") quiet)))
         [sheetMixed] []
         (dataRow "1" "Brick Masonry Walls" 850 " m2 ")
         (skipn 2 sheetMixed) initial quiet
         (TypeError "Cannot read properties of null (reading 'toLowerCase')")
         quiet).
  - reflexivity.
  - reflexivity.
  - reflexivity.
  - vm_compute. reflexivity.
Defined.

(** C9, the claim as stated fails: its example, a catalog record with a
    null unit that throws after some rows were already priced, cannot
    occur.  With such a record standing after one that matches the first
    row, that row throws all the same, in the initial state; and in no run
    does a row throw after an item was pushed. *)
Lemma no_row_is_priced_before_a_throw :
  processRow (envOf (Return [sheetMixed]) fencedReply) [brickwork; unitless]
    (VStr "KEY") initial (dataRow "1" "Brick Masonry Walls" 850 " m2 ") quiet
  = (Throw (TypeError "Cannot read properties of null (reading 'toLowerCase')"),
     quiet)
  /\
  ~ (exists env ratesData key done st log log1 row e log2,
       processRows env ratesData key done initial log = (Return st, log1) /\
       processRow env ratesData key st row log1 = (Throw e, log2) /\
       items st <> []).
Proof.
  split; [vm_compute; reflexivity|].
  intros (env & ratesData & key & done & st & log & log1 & row & e & log2
          & Hdone & Hrow & Hsome).
  apply Hsome.
  exact (@throw_comes_before_any_item _ _ _ _ _ _ _ _ _ _ Hdone Hrow).
Qed.

End Orchestrator.

(** ** Part XI. The tokenizer and the fuzzy matcher *)

Module MatcherFacts.
Import Js Boq Props.
Local Open Scope list_scope.

Lemma toLowerChar_idempotent c : toLowerChar (toLowerChar c) = toLowerChar c.
Proof. destruct c as [[] [] [] [] [] [] [] []]; reflexivity. Qed.

Lemma toLowerCase_idempotent s : toLowerCase (toLowerCase s) = toLowerCase s.
Proof.
  unfold toLowerCase. induction s as [|c s IH]; simpl.
  - reflexivity.
  - now rewrite toLowerChar_idempotent, IH.
Qed.

(** The unit the orchestrator reads off a row is in lower case. *)
Lemma rowUnit_lower row : toLowerCase (rowUnit row) = rowUnit row.
Proof. unfold rowUnit. apply toLowerCase_idempotent. Qed.

(** [setOf] keeps each element once. *)
Lemma setOf_from_spec l :
  forall seen,
    NoDup (setOf_from seen l) /\
    forall x, In x (setOf_from seen l) <-> In x l /\ has seen x = false.
Proof.
  induction l as [|y l IH]; intros seen; simpl.
  - split; [constructor|]. intros x. tauto.
  - destruct (has seen y) eqn:Hy.
    + destruct (IH seen) as [Hnd Hin]. split; [exact Hnd|].
      intros x. rewrite Hin. split.
      * intros [H1 H2]. auto.
      * intros [[->|H1] H2]; [congruence|auto].
    + destruct (IH (y :: seen)) as [Hnd Hin]. split.
      * constructor; [|exact Hnd]. rewrite Hin. simpl.
        rewrite String.eqb_refl. simpl. intros [_ Habs]. discriminate.
      * intros x. simpl. rewrite Hin. simpl. split.
        -- intros [->|[H1 H2]]; [auto|].
           apply orb_false_iff in H2. tauto.
        -- intros [[->|H1] H2]; [auto|].
           destruct (String.eqb x y) eqn:Hxy.
           ++ apply String.eqb_eq in Hxy. auto.
           ++ right. split; [exact H1|]. simpl. exact H2.
Qed.

Lemma tokenize_NoDup text : NoDup (tokenize text).
Proof.
  unfold tokenize. destruct text; try constructor.
  destruct (isEmpty s); [constructor|].
  apply setOf_from_spec.
Qed.

(** The inner loop counts 2 for each token shared with the name and 1 for
    each token shared with the keywords. *)
Lemma currentScore_counts descriptionTokens rate :
  currentScore descriptionTokens rate = score descriptionTokens rate.
Proof.
  unfold currentScore, score, shared.
  set (names := tokenize (Rate.item_name rate)).
  set (words := tokenize (Rate.keywords rate)).
  assert (H : forall l acc,
             fold_left
               (fun sc token =>
                  let sc := if has names token then sc + 2 else sc in
                  if has words token then sc + 1 else sc) l acc
             = acc + (2 * List.length (filter (has names) l)
                      + 1 * List.length (filter (has words) l))).
  { induction l as [|token l IH]; intros acc; simpl.
    - lia.
    - rewrite IH.
      destruct (has names token), (has words token); simpl; lia. }
  apply H.
Qed.

(** The filter by unit keeps the candidates of the specification. *)
Lemma relevantRates_candidates unit ratesData :
  unitsAreStrings ratesData ->
  toLowerCase unit = unit ->
  relevantRates unit ratesData = Return (candidates unit ratesData).
Proof.
  intros Hunits Hlower.
  induction Hunits as [|rate rest [u Hu] _ IH]; simpl.
  - reflexivity.
  - unfold unitMatches, sameUnit. rewrite Hu, IH, Hlower. reflexivity.
Qed.

(** One step of the selection loop keeps the selection correct on the
    candidates seen so far. *)
Lemma bestStep_selects tokens seen acc rate :
  selects (score tokens) seen acc ->
  selects (score tokens) (seen ++ [rate]) (bestStep tokens acc rate).
Proof.
  destruct acc as [[winner|] highest]; unfold bestStep, selects;
    rewrite currentScore_counts.
  - intros (before & after & Hsplit & Hs & Hpos & Hbefore & Hafter).
    destruct (highest <? score tokens rate)%nat eqn:Hlt.
    + apply Nat.ltb_lt in Hlt.
      exists seen, []. repeat split; try lia; [|constructor].
      subst seen. apply Forall_app. split.
      * eapply Forall_impl; [|exact Hbefore]. simpl. intros; lia.
      * constructor; [lia|].
        eapply Forall_impl; [|exact Hafter]. simpl. intros; lia.
    + apply Nat.ltb_ge in Hlt.
      exists before, (after ++ [rate]). repeat split; try assumption.
      * subst seen. now rewrite <- app_assoc.
      * apply Forall_app. split; [exact Hafter|]. constructor; [lia|constructor].
  - intros [Hzero Hall]. subst highest.
    destruct (0 <? score tokens rate)%nat eqn:Hlt.
    + apply Nat.ltb_lt in Hlt.
      exists seen, []. repeat split; try lia; [|constructor].
      eapply Forall_impl; [|exact Hall]. simpl. intros; lia.
    + apply Nat.ltb_ge in Hlt. split; [reflexivity|].
      apply Forall_app. split; [exact Hall|]. constructor; [lia|constructor].
Qed.

Lemma fold_bestStep_selects tokens rest :
  forall seen acc,
    selects (score tokens) seen acc ->
    selects (score tokens) (seen ++ rest)
      (fold_left (bestStep tokens) rest acc).
Proof.
  induction rest as [|rate rest IH]; intros seen acc Hacc; simpl.
  - now rewrite app_nil_r.
  - replace (seen ++ rate :: rest) with ((seen ++ [rate]) ++ rest)
      by now rewrite <- app_assoc.
    apply IH. now apply bestStep_selects.
Qed.

End MatcherFacts.

Section Matcher.
Import Js Boq Props MatcherFacts Examples.
Local Open Scope list_scope.

(** C3. For every row and every catalog (whose units are strings), the
    matcher's candidates are exactly the catalog entries whose unit equals
    the row's unit, case ignored; a candidate's score is 2 times the number
    of description tokens shared with its name's tokens plus 1 times the
    number shared with its keywords' tokens; the winner is the candidate of
    strictly highest positive score, the first one in catalog order among
    equals; a highest score of 0, or no candidate, is no match; and the
    outcome is a function of the description, the unit and the catalog. *)
Theorem fuzzyMatch_selects_first_best row ratesData :
  unitsAreStrings ratesData ->
  let tokens := tokenize (VStr (rowDescription row)) in
  NoDup tokens /\
  (exists result,
     fuzzyMatch (rowDescription row) (rowUnit row) ratesData = Return result
     /\
     selects (score tokens) (candidates (rowUnit row) ratesData) result) /\
  (forall r1 r2,
     fuzzyMatch (rowDescription row) (rowUnit row) ratesData = r1 ->
     fuzzyMatch (rowDescription row) (rowUnit row) ratesData = r2 ->
     r1 = r2).
Proof.
  intros Hunits tokens. split; [apply tokenize_NoDup|]. split.
  - unfold fuzzyMatch.
    rewrite (relevantRates_candidates Hunits (rowUnit_lower row)).
    set (cands := candidates (rowUnit row) ratesData).
    destruct (0 <? List.length cands)%nat eqn:Hlen.
    + eexists. split; [reflexivity|].
      apply (fold_bestStep_selects tokens cands [] (None, 0)).
      split; [reflexivity|constructor].
    + exists (None, 0). split; [reflexivity|].
      apply Nat.ltb_ge in Hlen. destruct cands; [|simpl in Hlen; lia].
      split; [reflexivity|constructor].
  - intros r1 r2 H1 H2. congruence.
Qed.

(** Scenario A against three candidates: the units match with case
    ignored, the brickwork record scores 2 on its keywords, the blockwork
    record 3 (2 for "brick" in its name, 1 for "masonry"), and wins. *)
Lemma fuzzyMatch_selects_first_best_witness :
  let row := dataRow "1" "Brick Masonry Walls" 850 " m2 " in
  let ratesData := [brickwork; plaster; blockwork] in
  let tokens := tokenize (VStr (rowDescription row)) in
  (candidates (rowUnit row) ratesData = ratesData /\
   map (score tokens) ratesData = [2; 0; 3] /\
   fuzzyMatch (rowDescription row) (rowUnit row) ratesData
   = Return (Some blockwork, 3)) /\
  (NoDup tokens /\
   (exists result,
      fuzzyMatch (rowDescription row) (rowUnit row) ratesData = Return result
      /\
      selects (score tokens) (candidates (rowUnit row) ratesData) result) /\
   (forall r1 r2,
      fuzzyMatch (rowDescription row) (rowUnit row) ratesData = r1 ->
      fuzzyMatch (rowDescription row) (rowUnit row) ratesData = r2 ->
      r1 = r2)).
Proof.
  split.
  - repeat split; vm_compute; reflexivity.
  - apply (@fuzzyMatch_selects_first_best
             (dataRow "1" "Brick Masonry Walls" 850 " m2 ")
             [brickwork; plaster; blockwork]).
    repeat constructor; eexists; reflexivity.
Defined.

End Matcher.

(** ** Part XII. The external rate advisor adapter *)

Section Adapter.
Import Js Boq Props LoopFacts Examples.
Local Open Scope list_scope.

(** With a credential, the adapter sends one request and returns the rate
    the answer suggests, if it is well formed. *)
Lemma adviseBody_suggestion env description unit key log rate :
  fst (adviseBody env (geminiApiUrl key) (prompt description unit) log)
  = Return (Some rate)
  <-> suggests env log (requestFor description unit key) rate.
Proof.
  unfold adviseBody, suggests, requestFor; simpl.
  destruct (axios_post env (List.length log) (geminiApiUrl key)
              (prompt description unit)) as [|data] eqn:Hpost.
  - split; [discriminate|]. intros (d & t & p & H & _). discriminate.
  - assert (Hsame :
              (exists d t p,
                  NetResponse data = NetResponse d /\
                  rawTextOf d = Some (JStr t) /\ t <> EmptyString /\
                  JSON_parse env (cleanReply t) = Some p /\
                  Json.prop "rate" (Some p) = Some (JNum rate))
              <->
              (exists t p,
                  rawTextOf data = Some (JStr t) /\ t <> EmptyString /\
                  JSON_parse env (cleanReply t) = Some p /\
                  Json.prop "rate" (Some p) = Some (JNum rate))).
    { split.
      - intros (d & t & p & H1 & H). inversion H1; subst. eauto.
      - intros (t & p & H). exists data, t, p. auto. }
    rewrite Hsame. clear Hsame.
    destruct (rawTextOf data) as [raw|] eqn:Hraw.
    2:{ simpl. split; [discriminate|]. intros (t & p & H & _). discriminate. }
    destruct raw as [|b|x|text|l|l]; simpl;
      try (split; [intros H; repeat match type of H with
                                   | context [if ?c then _ else _] =>
                                       destruct c
                                   end; discriminate
                  |intros (t & p & H & _); discriminate]).
    destruct text as [|c text]; simpl.
    + split; [discriminate|].
      intros (t & p & H1 & H2 & _). inversion H1; subst. now contradiction H2.
    + destruct (JSON_parse env (cleanReply (String c text)))
        as [parsed|] eqn:Hparse.
      * split.
        -- destruct parsed as [|b|x|s|l|fields]; simpl;
             try (repeat match goal with
                         | |- context [if ?c then _ else _] => destruct c
                         end; simpl; discriminate).
           destruct (Json.lookup "rate" fields) as [[| |x| | |]|] eqn:Hrate;
             simpl; try discriminate.
           intros Hres. exists (String c text), (JObj fields).
           repeat split; try assumption; try discriminate.
           simpl. congruence.
        -- intros (t & p & H1 & H2 & H3 & H4).
           inversion H1; subst. rewrite Hparse in H3. inversion H3; subst.
           rewrite H4.
           destruct p; try discriminate. reflexivity.
      * split; [discriminate|].
        intros (t & p & H1 & H2 & H3 & _). inversion H1; subst. congruence.
Qed.

Lemma adviseBody_log env url body log :
  snd (adviseBody env url body log)
  = log ++ [ {| req_url := url; req_prompt := body |} ].
Proof.
  unfold adviseBody.
  repeat match goal with
         | |- context [if ?b then _ else _] => destruct b
         | |- context [match ?x with _ => _ end] => destruct x
         end; reflexivity.
Qed.

(** C7. The adapter never throws: it always returns a suggestion or null.
    Without a credential it returns null at once and sends nothing.  With
    one it sends exactly one request, and returns a suggestion exactly when
    the answer is well formed: a text that, stripped of its code fences,
    parses as JSON with a [rate] of numeric type; a failed request, a text
    that does not parse, or any other reply gives null. *)
Theorem getAiRateSuggestion_contract env description unit key log :
  (exists suggestion log',
     getAiRateSuggestion env description unit key log
     = (Return suggestion, log'))
  /\
  (truthy key = false ->
   getAiRateSuggestion env description unit key log = (Return None, log))
  /\
  (truthy key = true ->
   snd (getAiRateSuggestion env description unit key log)
   = log ++ [requestFor description unit key]
   /\
   (forall rate,
      fst (getAiRateSuggestion env description unit key log)
      = Return (Some rate)
      <-> suggests env log (requestFor description unit key) rate)
   /\
   ((forall rate, ~ suggests env log (requestFor description unit key) rate)
    -> fst (getAiRateSuggestion env description unit key log) = Return None)).
Proof.
  split; [apply getAiRateSuggestion_returns|]. split.
  - intros Hkey. unfold getAiRateSuggestion. now rewrite Hkey.
  - intros Hkey.
    assert (Hlog :
              snd (getAiRateSuggestion env description unit key log)
              = log ++ [requestFor description unit key]).
    { unfold getAiRateSuggestion, tryCatch, ret. rewrite Hkey. simpl.
      assert (H := adviseBody_log env (geminiApiUrl key)
                     (prompt description unit) log).
      destruct (adviseBody env (geminiApiUrl key) (prompt description unit) log)
        as [[r|e] l]; exact H. }
    assert (Hiff :
              forall rate,
                fst (getAiRateSuggestion env description unit key log)
                = Return (Some rate)
                <-> suggests env log (requestFor description unit key) rate).
    { intros rate. rewrite <- adviseBody_suggestion.
      unfold getAiRateSuggestion, tryCatch, ret. rewrite Hkey. simpl.
      destruct (adviseBody env (geminiApiUrl key) (prompt description unit) log)
        as [[r|e] l]; simpl; [tauto|].
      split; discriminate. }
    split; [exact Hlog|]. split; [exact Hiff|].
    intros Hnone.
    destruct (getAiRateSuggestion_returns env description unit key log)
      as (suggestion & log' & Hrun).
    rewrite Hrun. simpl. destruct suggestion as [rate|]; [|reflexivity].
    exfalso. apply (Hnone rate). apply Hiff. now rewrite Hrun.
Qed.

(** A fenced reply with a key, and the same call without a key. *)
Lemma getAiRateSuggestion_contract_witness :
  getAiRateSuggestion (envOf (Return []) fencedReply)
    "Install solar panel array" "unit" (VStr "KEY") quiet
  = (Return (Some 15000%float),
     [requestFor "Install solar panel array" "unit" (VStr "KEY")])
  /\
  getAiRateSuggestion (envOf (Return []) fencedReply)
    "Install solar panel array" "unit" VUndefined quiet
  = (Return None, quiet).
Proof.
  split.
  - vm_compute. reflexivity.
  - apply (proj1 (proj2 (@getAiRateSuggestion_contract
                           (envOf (Return []) fencedReply)
                           "Install solar panel array" "unit"
                           VUndefined quiet))).
    reflexivity.
Defined.

End Adapter.

(** ** Part XIII. The persistence step of [/upload-boq] *)

Module StoreFacts.
Import Js Boq Props Db Routes.
Local Open Scope list_scope.

Lemma insertAll_rows batch :
  forall r l s o,
    fold_left insertItem batch
      {| rates := r; boq_items := l; boq_items_id_seq := s; others := o |}
    = {| rates := r; boq_items := l ++ rowsFrom (s + 1) batch;
         boq_items_id_seq := s + Z.of_nat (List.length batch);
         others := o |}.
Proof.
  induction batch as [|item rest IH]; intros r l s o.
  - simpl. now rewrite app_nil_r, Z.add_0_r.
  - cbn [fold_left]. unfold insertItem at 2, insert. cbn [rates boq_items boq_items_id_seq others].
    rewrite IH. rewrite <- app_assoc. cbn [rowsFrom app List.length].
    f_equal. lia.
Qed.

Lemma truncate_then_insert t batch :
  fold_left insertItem batch (truncate t) = replaced t batch.
Proof.
  unfold truncate, replaced. rewrite insertAll_rows. reflexivity.
Qed.

(** The inserts of a batch inside a transaction: all of them run, or the
    first refused one throws; the committed tables are not touched. *)
Lemma insertItems_spec faulty batch :
  forall c working,
    transaction c = Some working ->
    match insertItems faulty batch c with
    | (Return _, c') =>
        committed c' = committed c /\
        transaction c' = Some (fold_left insertItem batch working) /\
        issued c' = (issued c + List.length batch)%nat /\
        ~ someInsertFails faulty (issued c) batch
    | (Throw _, c') =>
        committed c' = committed c /\
        (exists working', transaction c' = Some working') /\
        someInsertFails faulty (issued c) batch
    end.
Proof.
  induction batch as [|item rest IH]; intros c working Htx; simpl.
  - repeat split; auto.
    intros (k & item & Hnth & _). destruct k; discriminate.
  - unfold query.
    destruct (faulty (issued c) (insertOf item)) eqn:Hfault.
    + simpl. repeat split; eauto.
      exists 0%nat, item. rewrite Nat.add_0_r. auto.
    + specialize (IH (count (run (insertOf item) c)) (insertItem working item)).
      assert (Htx' : transaction (count (run (insertOf item) c))
                     = Some (insertItem working item)).
      { unfold insertOf, run, write, count. rewrite Htx. reflexivity. }
      specialize (IH Htx').
      assert (Hcommitted : committed (count (run (insertOf item) c))
                           = committed c).
      { unfold insertOf, run, write, count. rewrite Htx. reflexivity. }
      assert (Hissued : issued (count (run (insertOf item) c))
                        = S (issued c)).
      { unfold insertOf, run, write, count. rewrite Htx. reflexivity. }
      destruct (insertItems faulty rest (count (run (insertOf item) c)))
        as [[u|e] c'].
      * destruct IH as (H1 & H2 & H3 & H4). repeat split.
        -- congruence.
        -- exact H2.
        -- rewrite H3, Hissued. lia.
        -- intros (k & item' & Hnth & Hk). destruct k as [|k].
           ++ simpl in Hnth. inversion Hnth; subst.
              rewrite Nat.add_0_r in Hk. congruence.
           ++ apply H4. exists k, item'. split; [exact Hnth|].
              rewrite Hissued. now replace (S (issued c) + k)%nat
                with (issued c + S k)%nat by lia.
      * destruct IH as (H1 & H2 & (k & item' & Hnth & Hk)). repeat split.
        -- congruence.
        -- exact H2.
        -- exists (S k), item'. split; [exact Hnth|].
           rewrite Hissued in Hk. now replace (issued c + S k)%nat
             with (S (issued c) + k)%nat by lia.
Qed.


Lemma guarded_inserts faulty batch c :
  (if (0 <? List.length batch)%nat then insertItems faulty batch c
   else (Return tt, c))
  = insertItems faulty batch c.
Proof. destruct batch; reflexivity. Qed.

(** Steps 1 to 3: either every statement ran and the committed store holds
    exactly the batch, or a statement was refused and the committed tables
    are the old ones. *)
Lemma persist_outcome env faulty fileBuffer key c log :
  transaction c = None ->
  match persist env faulty fileBuffer key c log with
  | (Return result, c', log') =>
      parseAndMatchBOQ env fileBuffer (rates (committed c)) key log
      = (Return result, log') /\
      committed c' = replaced (committed c) (processedItems result) /\
      transaction c' = None /\
      ~ refused faulty c (Return result)
  | (Throw _, c', log') =>
      committed c' = committed c /\
      refused faulty c
        (fst (parseAndMatchBOQ env fileBuffer (rates (committed c)) key log))
  end.
Proof.
  intros Htx.
  destruct (OrchestratorFacts.parseAndMatchBOQ_returns env fileBuffer
              (rates (committed c)) key log)
    as (result & log1 & Hparse).
  unfold persist, refused.
  unfold query at 1. unfold view. rewrite Htx.
  destruct (faulty (issued c) SelectRates) eqn:F0; [simpl; auto|].
  cbn [run]. rewrite Hparse.
  unfold query at 1. cbn [issued count].
  replace (issued c + 1)%nat with (S (issued c)) by lia.
  destruct (faulty (S (issued c)) Begin) eqn:F1; [simpl; auto|].
  cbn [run transaction count]. rewrite Htx.
  unfold query at 1. cbn [issued count].
  replace (issued c + 2)%nat with (S (S (issued c))) by lia.
  destruct (faulty (S (S (issued c))) TruncateBoqItems) eqn:F2;
    [simpl; auto|].
  rewrite guarded_inserts.
  match goal with
  | |- context [insertItems faulty _ ?x] => set (c3 := x)
  end.
  assert (Htx3 : transaction c3 = Some (truncate (committed c)))
    by reflexivity.
  assert (Hissued3 : issued c3 = (issued c + 3)%nat)
    by (subst c3; simpl; lia).
  assert (Hins := insertItems_spec faulty (processedItems result) c3 Htx3).
  destruct (insertItems faulty (processedItems result) c3) as [[u|e] c4].
  - destruct Hins as (Hcommitted & Htx4 & Hissued4 & Hnofail).
    unfold query. rewrite Hissued4, Hissued3.
    destruct (faulty (issued c + 3 + List.length (processedItems result))%nat
                Commit) eqn:F3.
    + simpl. split; [rewrite Hcommitted; reflexivity|].
      right. right. right. exists result. auto.
    + cbn [run count committed transaction]. unfold view. rewrite Htx4.
      rewrite truncate_then_insert.
      repeat split.
      intros [H|[H|[H|(result' & Hres & [H|H])]]]; congruence.
  - destruct Hins as (Hcommitted & _ & Hfail).
    simpl. split; [rewrite Hcommitted; reflexivity|].
    right. right. right. exists result. split; [reflexivity|].
    left. now rewrite <- Hissued3.
Qed.

End StoreFacts.

Section Persistence.
Import Js Boq Props LoopFacts OrchestratorFacts Db Routes StoreFacts Examples.
Local Open Scope list_scope.

(** The [catch] block: the rollback leaves the committed tables alone; the
    failure is reported unless the rollback itself is refused. *)
Lemma rollback_outcome faulty c1 :
  committed (snd (query faulty Rollback c1)) = committed c1 /\
  (faulty (issued c1) Rollback = false ->
   exists rows c2,
     query faulty Rollback c1 = (Return rows, c2) /\ transaction c2 = None) /\
  (faulty (issued c1) Rollback = true ->
   exists e c2, query faulty Rollback c1 = (Throw e, c2)).
Proof.
  unfold query. destruct (faulty (issued c1) Rollback); simpl.
  - repeat split; [discriminate|eauto].
  - repeat split; [eauto|discriminate].
Qed.

(** X18. The persistence step replaces the stored items atomically.  For
    an uploaded file and a client with no open transaction: either the
    response is the result and the committed store holds exactly the rows
    of the result's items (description, quantity, unit, rate, total, in
    spreadsheet order, no provenance flag), or a statement was refused,
    the committed tables are exactly the old ones and the response is not
    the result.  In particular, when the result is computed and one of its
    inserts is refused (nothing else being refused), the transaction is
    rolled back, the stored items are unchanged and the caller gets the
    failure response. *)
Theorem upload_replaces_items_atomically
  env faulty fileBuffer key c log response c' log' :
  transaction c = None ->
  uploadBoq env faulty (Some fileBuffer) key c log = (response, c', log') ->
  ((exists result,
      response = Ok result /\
      parseAndMatchBOQ env fileBuffer (rates (committed c)) key log
      = (Return result, log') /\
      committed c' = replaced (committed c) (processedItems result) /\
      transaction c' = None)
   \/
   (committed c' = committed c /\
    (response = ServerError "An error occurred during BOQ processing."
     \/ response = Unanswered) /\
    refused faulty c
      (fst (parseAndMatchBOQ env fileBuffer (rates (committed c)) key log))))
  /\
  (forall result log1,
     parseAndMatchBOQ env fileBuffer (rates (committed c)) key log
     = (Return result, log1) ->
     onlyInsertsFail faulty ->
     someInsertFails faulty (issued c + 3) (processedItems result) ->
     response = ServerError "An error occurred during BOQ processing." /\
     committed c' = committed c /\ transaction c' = None).
Proof.
  intros Htx Hrun. unfold uploadBoq in Hrun.
  assert (Hpersist := @persist_outcome env faulty fileBuffer key c log Htx).
  destruct (persist env faulty fileBuffer key c log)
    as [[[result|e] c1] log1].
  - inversion Hrun; subst.
    destruct Hpersist as (Hparse & Hcommitted & Htx' & Hok).
    split.
    + left. exists result. auto.
    + intros result' log1 Hparse' _ Hfail. exfalso. apply Hok.
      right. right. right. exists result. split; [reflexivity|].
      left. congruence.
  - destruct Hpersist as (Hcommitted & Hrefused).
    destruct (rollback_outcome faulty c1) as (Hsame & Hdone & Hlost).
    split.
    + right.
      destruct (query faulty Rollback c1) as [[rows|e'] c2];
        inversion Hrun; subst; simpl in Hsame;
        (split; [congruence|]); split; auto.
    + intros result' log1' Hparse' Honly Hfail.
      destruct (faulty (issued c1) Rollback) eqn:Hrb.
      * destruct (Honly _ _ Hrb) as (d & q & u & r & t & Habs). discriminate.
      * destruct (Hdone eq_refl) as (rows & c2 & Hq & Htx2).
        rewrite Hq in Hrun. inversion Hrun; subst.
        rewrite Hq in Hsame. simpl in Hsame.
        repeat split; congruence.
Qed.

Lemma rejectNegative_onlyInserts : onlyInsertsFail rejectNegative.
Proof.
  intros n stmt H. destruct stmt; try discriminate H.
  do 5 eexists. reflexivity.
Qed.

(** The mixed sheet against the check [quantity >= 0]: the third insert
    (quantity -5) is refused, the two rows inserted before it are rolled
    back with the truncate, and the earlier item is still stored. *)
Lemma upload_replaces_items_atomically_witness :
  let out :=
    uploadBoq (envOf (Return [sheetMixed]) fencedReply) rejectNegative
      (Some []) (VStr "KEY") pooled quiet in
  fst (fst out) = ServerError "An error occurred during BOQ processing." /\
  committed (snd (fst out)) = committed pooled /\
  transaction (snd (fst out)) = None.
Proof.
  intros out.
  refine
    (proj2 (@upload_replaces_items_atomically
              (envOf (Return [sheetMixed]) fencedReply) rejectNegative
              [] (VStr "KEY") pooled quiet
              (fst (fst out)) (snd (fst out)) (snd out) eq_refl _)
       (match fst (parseAndMatchBOQ (envOf (Return [sheetMixed]) fencedReply)
                     [] (rates (committed pooled)) (VStr "KEY") quiet) with
        | Return r => r
        | Throw _ => emptyResult
        end)
       (snd (parseAndMatchBOQ (envOf (Return [sheetMixed]) fencedReply)
               [] (rates (committed pooled)) (VStr "KEY") quiet))
       _ rejectNegative_onlyInserts _).
  - subst out. destruct (uploadBoq _ _ _ _ _ _) as [[? ?] ?]. reflexivity.
  - vm_compute. reflexivity.
  - exists 2%nat. eexists. split; vm_compute; reflexivity.
Defined.

(** A run over rows that are all skipped resolves empty. *)
Lemma all_rows_invalid_resolves_empty env fileBuffer ratesData key log sheets :
  xlsx_read env fileBuffer = Return sheets ->
  Forall (fun row => validRow row = false) (skipn 1 (firstSheet sheets)) ->
  parseAndMatchBOQ env fileBuffer ratesData key log
  = (Return emptyResult, log).
Proof.
  intros Hread Hall.
  destruct (parseAndMatchBOQ_cases env fileBuffer ratesData key log)
    as [(e & Hthrow & _)|(sheets' & Hread' & _ & Hloop)]; [congruence|].
  assert (sheets' = sheets) by congruence. subst sheets'.
  assert (Hrows : forall rows st,
             Forall (fun row => validRow row = false) rows ->
             processRows env ratesData key rows st log = (Return st, log)).
  { induction rows as [|row rows IH]; intros st Hrows; simpl.
    - reflexivity.
    - inversion Hrows as [|? ? Hrow Hrest]; subst. unfold bind.
      destruct (processRow_cases env ratesData key st row log)
        as [[_ H]|[[Hv _]|[Hv _]]]; try congruence.
      rewrite H. now apply IH. }
  rewrite (Hrows _ initial Hall) in Hloop. exact Hloop.
Qed.

(** C10. When the computed batch is empty the handler still truncates
    the item store inside the transaction and commits.  With a client
    that has no open transaction and a server that refuses none of the
    four statements, an empty result gives the success response with no
    item and total 0, and leaves the committed item store empty, whatever
    it held, while the rate catalog and every other table are what they
    were.  The result is empty in particular when the file cannot be
    decoded, and when every data row is invalid. *)
Theorem empty_batch_erases_stored_items
  env faulty fileBuffer key c log result log1 :
  transaction c = None ->
  faulty (issued c) SelectRates = false ->
  faulty (issued c + 1) Begin = false ->
  faulty (issued c + 2) TruncateBoqItems = false ->
  faulty (issued c + 3) Commit = false ->
  parseAndMatchBOQ env fileBuffer (rates (committed c)) key log
  = (Return result, log1) ->
  processedItems result = [] ->
  (exists c',
     uploadBoq env faulty (Some fileBuffer) key c log
     = (Ok {| processedItems := []; projectTotal := zero |}, c', log1) /\
     boq_items (committed c') = [] /\
     rates (committed c') = rates (committed c) /\
     others (committed c') = others (committed c) /\
     transaction c' = None)
  /\
  ((exists e, xlsx_read env fileBuffer = Throw e) \/
   (exists sheets,
      xlsx_read env fileBuffer = Return sheets /\
      Forall (fun row => validRow row = false) (skipn 1 (firstSheet sheets)))
   -> forall ratesData,
      parseAndMatchBOQ env fileBuffer ratesData key log
      = (Return {| processedItems := []; projectTotal := zero |}, log)).
Proof.
  intros Htx F0 F1 F2 F3 Hparse Hempty. split.
  - assert (Hresult : result = {| processedItems := []; projectTotal := zero |}).
    { destruct (parseAndMatchBOQ_spec _ _ _ _ _ Hparse) as [Htotal _].
      destruct result as [batch total]. simpl in *. subst batch.
      now rewrite Htotal. }
    assert (Hpersist := @persist_outcome env faulty fileBuffer key c log Htx).
    unfold uploadBoq.
    destruct (persist env faulty fileBuffer key c log)
      as [[[result'|e] c1] log1'].
    + destruct Hpersist as (Hparse' & Hcommitted & Htx' & _).
      assert (result' = result /\ log1' = log1) as [-> ->]
          by (split; congruence).
      exists c1. rewrite Hcommitted, Hempty, Hresult. simpl. auto.
    + exfalso. destruct Hpersist as (_ & [H|[H|[H|(r & Hr & [H|H])]]]);
        try congruence;
        rewrite Hparse in Hr; simpl in Hr; inversion Hr; subst r.
      * rewrite Hempty in H. destruct H as (k & item & Hnth & _).
        destruct k; discriminate.
      * rewrite Hempty in H. simpl in H. rewrite Nat.add_0_r in H. congruence.
  - intros [[e Hread]|(sheets & Hread & Hall)] ratesData.
    + destruct (parseAndMatchBOQ_cases env fileBuffer ratesData key log)
        as [(e' & _ & _ & Hrun)|(sheets & Hread' & _)];
        [exact Hrun|congruence].
    + exact (@all_rows_invalid_resolves_empty env fileBuffer ratesData key log
               sheets Hread Hall).
Qed.

(** A sheet whose only data rows lack a description or are empty, on a
    store that holds one earlier item. *)
Lemma empty_batch_erases_stored_items_witness :
  exists c',
    uploadBoq (envOf (Return [[header; dataRow "3" "" 4 "m2"; []]]) NetFail)
      noFault (Some []) VUndefined pooled quiet
    = (Ok {| processedItems := []; projectTotal := zero |}, c', quiet) /\
    boq_items (committed c') = [] /\
    rates (committed c') = rates (committed pooled) /\
    others (committed c') = others (committed pooled) /\
    transaction c' = None.
Proof.
  apply (proj1 (@empty_batch_erases_stored_items
                  (envOf (Return [[header; dataRow "3" "" 4 "m2"; []]]) NetFail)
                  noFault [] VUndefined pooled quiet
                  {| processedItems := []; projectTotal := zero |} quiet
                  eq_refl eq_refl eq_refl eq_refl eq_refl eq_refl eq_refl)).
Defined.

End Persistence.

(** *** The [catch] block when the rollback is refused *)

Section RefusedRollback.
Import Js Boq Props LoopFacts OrchestratorFacts Db Routes StoreFacts.
Import Examples MoreExamples.
Local Open Scope list_scope.





End RefusedRollback.

(** ** Part XIV. The rate limiter *)

Module LimiterFacts.
Import RateLimiter.
Local Open Scope list_scope.
Local Open Scope Z_scope.

Section Facts.
Variable A : Type.
Variable delay : Z.

Lemma scan_app st (t1 t2 : list (Event A)) :
  scan st (t1 ++ t2) = scan (scan st t1) t2.
Proof. unfold scan. apply fold_left_app. Qed.

(** A trace extended at its end is serial when it was and the new events
    are, read from where the old ones leave off. *)
Lemma serial_app c (t1 t2 : list (Event A)) :
  forall running last,
    serial c running last (t1 ++ t2)
    <-> serial c running last t1 /\
        serial c (fst (scan (running, last) t1))
          (snd (scan (running, last) t1)) t2.
Proof.
  induction t1 as [|e t1 IH]; intros running last; simpl.
  - tauto.
  - destruct e as [time k|time k|time k r|time k r]; simpl;
      rewrite ?IH; unfold scan; simpl; tauto.
Qed.

Lemma started_app (t1 t2 : list (Event A)) :
  started (t1 ++ t2) = started t1 ++ started t2.
Proof. unfold started. apply flat_map_app. Qed.

Lemma enqueued_app (t1 t2 : list (Event A)) :
  enqueued (t1 ++ t2) = enqueued t1 ++ enqueued t2.
Proof. unfold enqueued. apply flat_map_app. Qed.

(** [process] on a limiter that is busy, or idle with an empty queue,
    does nothing; on an idle limiter with entries it starts the first. *)
Lemma process_invariant (l : Loop A) :
  invariant true delay l -> invariant false delay (process l).
Proof.
  intros (Hdelay & Hserial & Hfifo & Hphase).
  unfold process.
  destruct (isProcessing (limiter l)) eqn:Hbusy; simpl.
  - (* busy: nothing happens *)
    repeat split; try assumption.
    unfold phase in *. destruct (scan (None, None) (trace l)) as [running last].
    cbv beta iota zeta in *.
    destruct Hphase as [(Hp & _)|[H|H]]; [congruence|right; left; exact H
                                          |right; right; exact H].
  - destruct (queue (limiter l)) as [|ticket rest] eqn:Hqueue; simpl.
    + (* idle, nothing queued *)
      split; [exact Hdelay|]. split; [exact Hserial|].
      split; [now rewrite Hqueue|].
      unfold phase in *.
      destruct (scan (None, None) (trace l)) as [running last].
    cbv beta iota zeta in *.
      destruct Hphase as [(Hp & Ha & Ht & _ & Hr & Hl)|[(Hp & _)|(Hp & _)]];
        try congruence.
      left. repeat split; auto.
    + (* idle, the head of the queue starts *)
      unfold phase in Hphase.
      destruct (scan (None, None) (trace l)) as [running last] eqn:Hscan.
    cbv beta iota zeta in *.
      destruct Hphase as [(Hp & Ha & Ht & _ & Hr & Hl)|[(Hp & _)|(Hp & _)]];
        try congruence.
      subst running.
      unfold invariant, phase; simpl. repeat split.
      * exact Hdelay.
      * apply serial_app. split; [exact Hserial|].
        rewrite Hscan. simpl. repeat split.
        destruct last as [e|]; [now apply Hl|exact I].
      * rewrite started_app, enqueued_app. simpl.
        rewrite app_nil_r, <- app_assoc. exact Hfifo.
      * rewrite scan_app, Hscan. simpl.
        right. left. split; [reflexivity|].
        exists ticket, (now l). rewrite Ha. repeat split; auto. lia.
Qed.

Lemma add_invariant ticket (l : Loop A) :
  invariant false delay l -> invariant false delay (add ticket l).
Proof.
  intros (Hdelay & Hserial & Hfifo & Hphase).
  unfold add. apply process_invariant.
  unfold invariant, phase in *; simpl. repeat split.
  - exact Hdelay.
  - apply serial_app. split; [exact Hserial|]. simpl. exact I.
  - rewrite started_app, enqueued_app. simpl.
    rewrite app_nil_r, app_assoc. now rewrite Hfifo.
  - rewrite scan_app. simpl.
    destruct (scan (None, None) (trace l)) as [running last].
    cbv beta iota zeta in *.
    destruct Hphase as [(Hp & Ha & Ht & _ & Hr & Hl)|[H|H]];
      [left; repeat split; auto; discriminate
      |right; left; exact H|right; right; exact H].
Qed.

Lemma resume_invariant ticket outcome (l : Loop A) :
  invariant false delay l -> In ticket (awaiting l) ->
  invariant false delay (resume ticket outcome l).
Proof.
  intros (Hdelay & Hserial & Hfifo & Hphase) Hin.
  unfold phase in Hphase.
  destruct (scan (None, None) (trace l)) as [running last] eqn:Hscan.
    cbv beta iota zeta in *.
  destruct Hphase as [(_ & Ha & _)|[(Hp & k & s & Ha & Ht & Hr & Hs)
                                   |(_ & e & Ha & _)]];
    try (rewrite Ha in Hin; contradiction).
  rewrite Ha in Hin. destruct Hin as [->|[]].
  assert (Hev : scanStep (running, last) (settlement (now l) ticket outcome)
                = (None, Some (now l)))
    by (destruct outcome; reflexivity).
  unfold invariant, phase, resume; simpl. repeat split.
  - exact Hdelay.
  - apply serial_app. split; [exact Hserial|].
    rewrite Hscan, Hr. destruct outcome; simpl; eauto.
  - assert (Hnone : started [settlement (now l) ticket outcome] = [])
      by (destruct outcome; reflexivity).
    assert (Hnone' : enqueued [settlement (now l) ticket outcome] = [])
      by (destruct outcome; reflexivity).
    rewrite started_app, enqueued_app, Hnone, Hnone', !app_nil_r.
    exact Hfifo.
  - rewrite scan_app, Hscan. unfold scan at 1. simpl. rewrite Hev.
    right. right. split; [exact Hp|].
    exists (now l). rewrite Ha, Ht, Hdelay. simpl.
    rewrite Nat.eqb_refl. auto.
Qed.

Lemma timeout_invariant due (l : Loop A) :
  invariant false delay l -> In due (timers l) -> due <= now l ->
  invariant false delay (timeout due l).
Proof.
  intros (Hdelay & Hserial & Hfifo & Hphase) Hin Hdue.
  unfold timeout. apply process_invariant.
  unfold invariant, phase in *; simpl. repeat split; try assumption.
  destruct (scan (None, None) (trace l)) as [running last].
    cbv beta iota zeta in *.
  destruct Hphase as [(_ & _ & Ht & _)|[(_ & k & s & _ & Ht & _)
                                       |(_ & e & Ha & Ht & Hr & Hl)]];
    try (rewrite Ht in Hin; contradiction).
  rewrite Ht in Hin. destruct Hin as [<-|[]].
  left. rewrite Ht. simpl. rewrite Z.eqb_refl.
  repeat split; auto; try discriminate.
  intros e' He'. inversion Hl; subst. congruence.
Qed.

Lemma tick_invariant dt (l : Loop A) :
  invariant false delay l -> 0 <= dt -> invariant false delay (tick dt l).
Proof.
  intros (Hdelay & Hserial & Hfifo & Hphase) Hdt.
  unfold invariant, phase in *; simpl. repeat split; try assumption.
  destruct (scan (None, None) (trace l)) as [running last].
    cbv beta iota zeta in *.
  destruct Hphase as [(Hp & Ha & Ht & Hq & Hr & Hl)
                     |[(Hp & k & s & Ha & Ht & Hr & Hs)|H]].
  - left. repeat split; auto. intros e He. specialize (Hl e He). lia.
  - right. left. split; [exact Hp|]. exists k, s. repeat split; auto. lia.
  - right. right. exact H.
Qed.

Lemma reachable_invariant start (l : Loop A) :
  reachable delay start l -> invariant false delay l.
Proof.
  induction 1 as [|l l' _ IH Hstep].
  - unfold invariant, phase, boot; simpl. repeat split.
    left. repeat split; auto. discriminate.
  - destruct Hstep.
    + now apply add_invariant.
    + now apply resume_invariant.
    + now apply timeout_invariant.
    + now apply tick_invariant.
Qed.

(** In a serial trace the starts are a cooldown apart: a task starts no
    sooner than the cooldown after the previous one settled, which was no
    sooner than it started. *)
Lemma serial_spaced c (tr : list (Event A)) :
  forall running last prev,
    match running with
    | Some (_, s) => prev = Some s
    | None =>
        match prev with
        | Some s => exists e, last = Some e /\ s <= e
        | None => True
        end
    end ->
    serial c running last tr ->
    spacedFrom c prev (startTimes tr).
Proof.
  induction tr as [|ev tr IH]; intros running last prev Hprev Hserial.
  - exact I.
  - destruct ev as [time k|time k|time k r|time k r]; simpl in *.
    + eapply IH; eassumption.
    + destruct Hserial as (Hidle & Hwait & Hrest). subst running. split.
      * destruct prev as [s|]; [|exact I].
        destruct Hprev as (e & -> & Hse). lia.
      * eapply IH; [|exact Hrest]. reflexivity.
    + destruct Hserial as ((s & -> & Hs) & Hrest).
      eapply IH; [|exact Hrest]. simpl. subst prev. eauto.
    + destruct Hserial as ((s & -> & Hs) & Hrest).
      eapply IH; [|exact Hrest]. simpl. subst prev. eauto.
Qed.

End Facts.
End LimiterFacts.

Section SharedLimiter.
Import RateLimiter LimiterFacts Examples.
Local Open Scope list_scope.
Local Open Scope Z_scope.

(** After the task in progress settles, with either outcome, and the
    cooldown has passed, the timer fires and the next entry starts. *)
Lemma settle_then_continue (A : Type) delay start (l : Loop A)
  ticket outcome dt :
  0 <= delay ->
  reachable delay start l -> In ticket (awaiting l) -> delay <= dt ->
  let settled := resume ticket outcome l in
  let later := timeout (now l + delay) (tick dt settled) in
  reachable delay start later /\
  trace settled = trace l ++ [settlement (now l) ticket outcome] /\
  queue (limiter settled) = queue (limiter l) /\
  match queue (limiter l) with
  | next :: rest =>
      trace later = trace settled ++ [Started A (now l + dt) next] /\
      awaiting later = [next] /\ queue (limiter later) = rest
  | [] => trace later = trace settled /\ isProcessing (limiter later) = false
  end.
Proof.
  intros Hpos Hreach Hin Hdt settled later.
  destruct (reachable_invariant Hreach) as (Hdelay & _ & _ & Hphase).
  unfold phase in Hphase.
  destruct (scan (None, None) (trace l)) as [running last].
  cbv beta iota zeta in Hphase.
  destruct Hphase as [(_ & Ha & _)|[(Hp & k & s & Ha & Ht & Hr & Hs)
                                   |(_ & e & Ha & _)]];
    try (rewrite Ha in Hin; contradiction).
  rewrite Ha in Hin. destruct Hin as [->|[]].
  assert (Htimers : timers settled = [now l + delay])
    by (subst settled; unfold resume; simpl; now rewrite Ht, Hdelay).
  split.
  - subst later. apply reach_step with (l := tick dt settled).
    + apply reach_step with (l := settled).
      * apply reach_step with (l := l); [exact Hreach|].
        apply step_resume. rewrite Ha. now left.
      * apply step_tick. lia.
    + apply step_timeout.
      * change (In (now l + delay) (timers settled)).
        rewrite Htimers. now left.
      * simpl. lia.
  - split; [reflexivity|]. split; [reflexivity|].
    subst later. unfold timeout, process, tick. simpl.
    destruct (queue (limiter l)) as [|next rest]; simpl.
    + auto.
    + rewrite Ha. simpl. rewrite Nat.eqb_refl. auto.
Qed.

(** C5. On the shared limiter (cooldown 4500 ms), in every state the
    event loop can reach: at most one task is in progress, and in the trace
    every task starts while none is running and every settlement is that
    of the running task (one at a time); the tasks started, followed by
    those still queued, are the tasks enqueued, in that order (FIFO); a
    task starts no sooner than the cooldown after the previous one
    settled, so consecutive start times are at least one cooldown apart;
    and when the task in progress settles, resolved or rejected, only its
    own promise is settled, the queue is untouched, and once the cooldown
    has passed the timer fires and the next queued task starts. *)
Theorem aiLimiter_serializes (A : Type) (start : Z) (l : Loop A) :
  reachable cooldown start l ->
  limiter (boot A cooldown start) = aiLimiter /\
  minDelayMs (limiter l) = 4500 /\
  (List.length (awaiting l) <= 1)%nat /\
  serial cooldown None None (trace l) /\
  started (trace l) ++ queue (limiter l) = enqueued (trace l) /\
  spaced cooldown (startTimes (trace l)) /\
  (forall ticket outcome dt,
     In ticket (awaiting l) -> cooldown <= dt ->
     let settled := resume ticket outcome l in
     let later := timeout (now l + cooldown) (tick dt settled) in
     reachable cooldown start later /\
     trace settled = trace l ++ [settlement (now l) ticket outcome] /\
     queue (limiter settled) = queue (limiter l) /\
     match queue (limiter l) with
     | next :: rest =>
         trace later = trace settled ++ [Started A (now l + dt) next] /\
         awaiting later = [next] /\ queue (limiter later) = rest
     | [] =>
         trace later = trace settled /\ isProcessing (limiter later) = false
     end).
Proof.
  intros Hreach.
  destruct (reachable_invariant Hreach) as (Hdelay & Hserial & Hfifo & Hphase).
  split; [reflexivity|]. split; [exact Hdelay|]. split.
  { unfold phase in Hphase.
    destruct (scan (None, None) (trace l)) as [running last].
    cbv beta iota zeta in Hphase.
    destruct Hphase as [(_ & Ha & _)|[(_ & k & s & Ha & _)|(_ & e & Ha & _)]];
      rewrite Ha; simpl; lia. }
  split; [exact Hserial|]. split; [exact Hfifo|]. split.
  { apply (@serial_spaced A cooldown (trace l) None None None);
      [exact I|exact Hserial]. }
  intros ticket outcome dt Hin Hdt.
  apply (@settle_then_continue A cooldown start l ticket outcome dt);
    try assumption. unfold cooldown. lia.
Qed.

Lemma twoRequests_reachable : reachable cooldown 0 twoRequests.
Proof.
  unfold twoRequests.
  set (l0 := boot (option float) cooldown 0).
  apply reach_step
    with (l := tick 4500 (resume 1%nat (Throw NetworkError)
                            (add 2%nat (add 1%nat l0)))).
  apply reach_step
    with (l := resume 1%nat (Throw NetworkError) (add 2%nat (add 1%nat l0))).
  apply reach_step with (l := add 2%nat (add 1%nat l0)).
  apply reach_step with (l := add 1%nat l0).
  apply reach_step with (l := l0).
  - apply reach_boot.
  - apply step_add.
  - apply step_add.
  - apply step_resume. simpl. now left.
  - apply step_tick. lia.
  - apply step_timeout; [simpl; now left|simpl; lia].
Qed.

(** Two requests, the first of which fails: its promise alone is
    rejected, and the second starts 4500 ms later. *)
Lemma aiLimiter_serializes_witness :
  trace twoRequests
  = [Enqueued (option float) 0 1%nat; Started (option float) 0 1%nat;
     Enqueued (option float) 0 2%nat;
     Rejected (option float) 0 1%nat NetworkError;
     Started (option float) 4500 2%nat] /\
  started (trace twoRequests) ++ queue (limiter twoRequests)
  = enqueued (trace twoRequests) /\
  spaced cooldown (startTimes (trace twoRequests)).
Proof.
  split; [reflexivity|].
  destruct (@aiLimiter_serializes (option float) 0 twoRequests
              twoRequests_reachable)
    as (_ & _ & _ & _ & Hfifo & Hspaced & _).
  split; [exact Hfifo|exact Hspaced].
Defined.

End SharedLimiter.

(** ** Part XV. Further properties of the tokenizer and the matcher *)

Module TokenFacts.
Import Js Boq Props MoreProps MatcherFacts.
Local Open Scope list_scope.

Lemma allChars_forall p s :
  allChars p s = true <-> Forall (fun c => p c = true) (list_ascii_of_string s).
Proof.
  induction s as [|c s IH]; simpl.
  - split; [constructor|reflexivity].
  - rewrite andb_true_iff, IH. split.
    + intros [H1 H2]. now constructor.
    + intros H. inversion H; subst. auto.
Qed.

(** Every field of a split consists of characters of the text that are not
    white space (and of those already read into the current field). *)
Lemma split_ws_from_chars (P : ascii -> Prop) s :
  forall cur in_ws,
    Forall P cur ->
    Forall (fun c => isWhiteSpace c = false -> P c) (list_ascii_of_string s) ->
    Forall (fun field => Forall P (list_ascii_of_string field))
      (split_ws_from cur in_ws s).
Proof.
  induction s as [|c s IH]; intros cur in_ws Hcur Hs; simpl.
  - constructor; [|constructor].
    rewrite list_ascii_of_string_of_list_ascii. now apply Forall_rev.
  - simpl in Hs. inversion Hs as [|? ? Hc Hrest]; subst.
    destruct (isWhiteSpace c) eqn:Hws.
    + destruct in_ws.
      * now apply IH.
      * constructor.
        -- rewrite list_ascii_of_string_of_list_ascii. now apply Forall_rev.
        -- apply IH; [constructor|assumption].
    + apply IH; [|assumption]. constructor; auto.
Qed.

Lemma sfilter_chars p s :
  Forall (fun c => p c = true) (list_ascii_of_string (sfilter p s)).
Proof.
  induction s as [|c s IH]; simpl; [constructor|].
  destruct (p c) eqn:Hp; simpl; [constructor; assumption|assumption].
Qed.

Lemma sfilter_smap_chars (P : ascii -> Prop) p f s :
  (forall c, p (f c) = true -> P (f c)) ->
  Forall P (list_ascii_of_string (sfilter p (smap f s))).
Proof.
  intros H. induction s as [|c s IH]; simpl; [constructor|].
  destruct (p (f c)) eqn:Hp; simpl; [constructor; auto|assumption].
Qed.

Lemma kept_lower_char c :
  isWordChar (toLowerChar c) || isWhiteSpace (toLowerChar c) = true ->
  isWhiteSpace (toLowerChar c) = false ->
  isLowerWordChar (toLowerChar c) = true.
Proof. destruct c as [[] [] [] [] [] [] [] []]; vm_compute; congruence. Qed.

(** [tokenize] in one formula, the empty text included. *)
Lemma tokenize_normalized s :
  tokenize (VStr s) = setOf (filter keepWord (split_ws (normalized s))).
Proof.
  unfold tokenize, normalized. destruct s; reflexivity.
Qed.

Lemma setOf_In l x : In x (setOf l) -> In x l.
Proof.
  unfold setOf. intros H. now apply (proj2 (setOf_from_spec l [])) in H.
Qed.

End TokenFacts.

Section Tokens.
Import Js Boq Props MoreProps MatcherFacts TokenFacts Examples.
Local Open Scope list_scope.

(** X1. The tokens of any value are distinct strings of at least three
    characters, all from [[a-z0-9_]], none of them a stop word; and a value
    that is not a non-empty string has no token. *)
Theorem tokens_are_clean_words text :
  NoDup (tokenize text) /\
  (forall token,
     In token (tokenize text) ->
     (3 <= String.length token)%nat /\
     allChars isLowerWordChar token = true /\
     ~ In token STOP_WORDS) /\
  ((forall c s, text <> VStr (String c s)) -> tokenize text = []).
Proof.
  split; [apply tokenize_NoDup|]. split.
  2:{ intros Hnot. destruct text as [| | | |[|c s]]; try reflexivity.
      exfalso. now apply (Hnot c s). }
  intros token Hin.
  destruct text as [| | | |s]; try contradiction.
  rewrite tokenize_normalized in Hin.
  apply setOf_In, filter_In in Hin. destruct Hin as [Hfield Hkeep].
  unfold keepWord in Hkeep. apply andb_true_iff in Hkeep.
  destruct Hkeep as [Hlen Hstop].
  split; [apply Nat.ltb_lt in Hlen; lia|]. split.
  - apply allChars_forall.
    assert (Hchars :
              Forall (fun c => isWhiteSpace c = false ->
                               isLowerWordChar c = true)
                (list_ascii_of_string (normalized s))).
    { unfold normalized.
      apply (@sfilter_smap_chars
               (fun c => isWhiteSpace c = false -> isLowerWordChar c = true)).
      intros c Hk Hws. now apply kept_lower_char. }
    assert (Hall := @split_ws_from_chars
                      (fun c => isLowerWordChar c = true) (normalized s)
                      [] false (Forall_nil _) Hchars).
    unfold split_ws in Hfield.
    rewrite Forall_forall in Hall. now apply Hall.
  - intros Hbad. apply negb_true_iff in Hstop.
    unfold has in Hstop.
    assert (Hex : existsb (String.eqb token) STOP_WORDS = true).
    { apply existsb_exists. exists token. split; [exact Hbad|].
      apply String.eqb_refl. }
    congruence.
Qed.

Lemma keep_lower_char c :
  isWordChar (toLowerChar c) || isWhiteSpace (toLowerChar c)
  = isWordChar c || isWhiteSpace c.
Proof. destruct c as [[] [] [] [] [] [] [] []]; reflexivity. Qed.

Lemma normalized_lower s : normalized (toLowerCase s) = normalized s.
Proof. unfold normalized. now rewrite toLowerCase_idempotent. Qed.

Lemma normalized_stripped s :
  normalized (sfilter (fun c => isWordChar c || isWhiteSpace c) s)
  = normalized s.
Proof.
  unfold normalized, toLowerCase.
  induction s as [|c s IH]; simpl; [reflexivity|].
  destruct (isWordChar c || isWhiteSpace c) eqn:Hk; simpl;
    rewrite keep_lower_char, Hk, IH; reflexivity.
Qed.

(** X2. Tokenizing ignores letter case and every character that is
    neither a word character nor white space: a text, its lower-case form
    and its form without such characters have the same normal form, and two
    texts of the same normal form have the same tokens and, as
    descriptions, the same match against any unit and catalog. *)
Theorem tokenize_ignores_case_and_punctuation s :
  normalized (toLowerCase s) = normalized s /\
  normalized (sfilter (fun c => isWordChar c || isWhiteSpace c) s)
  = normalized s /\
  forall s',
    normalized s' = normalized s ->
    tokenize (VStr s') = tokenize (VStr s) /\
    forall unit ratesData,
      fuzzyMatch s' unit ratesData = fuzzyMatch s unit ratesData.
Proof.
  split; [apply normalized_lower|]. split; [apply normalized_stripped|].
  intros s' Hsame.
  assert (Htokens : tokenize (VStr s') = tokenize (VStr s))
    by (now rewrite !tokenize_normalized, Hsame).
  split; [exact Htokens|].
  intros unit ratesData. unfold fuzzyMatch. now rewrite Htokens.
Qed.

(** Scenario A shouted and punctuated. *)
Lemma tokenize_ignores_case_and_punctuation_witness :
  tokenize (VStr "BRICK, Masonry (walls)!")
  = tokenize (VStr "Brick Masonry Walls") /\
  fuzzyMatch "BRICK, Masonry (walls)!" "m2" [brickwork; plaster; blockwork]
  = fuzzyMatch "Brick Masonry Walls" "m2" [brickwork; plaster; blockwork].
Proof.
  assert (Hsame : normalized "BRICK, Masonry (walls)!"
                  = normalized "Brick Masonry Walls")
    by (vm_compute; reflexivity).
  destruct (proj2 (proj2 (tokenize_ignores_case_and_punctuation
                            "Brick Masonry Walls"))
              "BRICK, Masonry (walls)!" Hsame) as [Htokens Hmatch].
  split; [exact Htokens|apply Hmatch].
Defined.

End Tokens.

Module MatchFacts.
Import Js Boq Props MoreProps LoopFacts OrchestratorFacts MatcherFacts.
Local Open Scope list_scope.

Lemma relevantRates_app unit l1 l2 :
  relevantRates unit (l1 ++ l2)
  = match relevantRates unit l1 with
    | Throw e => Throw e
    | Return a =>
        match relevantRates unit l2 with
        | Throw e => Throw e
        | Return b => Return (a ++ b)
        end
    end.
Proof.
  induction l1 as [|rate l1 IH]; simpl.
  - destruct (relevantRates unit l2); reflexivity.
  - destruct (unitMatches unit rate) as [keep|e]; [|reflexivity].
    rewrite IH.
    destruct (relevantRates unit l1) as [a|e]; [|reflexivity].
    destruct (relevantRates unit l2) as [b|e]; [|reflexivity].
    destruct keep; reflexivity.
Qed.

(** The records the filter keeps are records of the catalog with the
    unit asked for. *)
Lemma relevantRates_In unit ratesData :
  forall relevant,
    relevantRates unit ratesData = Return relevant ->
    forall rate,
      In rate relevant ->
      In rate ratesData /\
      exists u, Rate.unit rate = VStr u /\ toLowerCase u = unit.
Proof.
  induction ratesData as [|r rest IH]; simpl; intros relevant Hrel rate Hin.
  - inversion Hrel; subst. contradiction.
  - unfold unitMatches in Hrel.
    destruct (Rate.unit r) as [| | | |u] eqn:Hu; try discriminate.
    destruct (relevantRates unit rest) as [l|e]; [|discriminate].
    inversion Hrel; subst. clear Hrel.
    destruct (String.eqb (toLowerCase u) unit) eqn:Heq.
    + destruct Hin as [<-|Hin].
      * split; [now left|]. exists u. split; [exact Hu|].
        now apply String.eqb_eq.
      * destruct (IH l eq_refl rate Hin) as [H1 H2]. split; [now right|exact H2].
    + destruct (IH l eq_refl rate Hin) as [H1 H2]. split; [now right|exact H2].
Qed.

(** The best match the loop ends with is one of the records it went
    through, with its score, unless it is the one it started with. *)
Lemma fold_bestStep_winner tokens l :
  forall best0 score0 winner highest,
    fold_left (bestStep tokens) l (best0, score0) = (Some winner, highest) ->
    (In winner l /\ highest = currentScore tokens winner /\ score0 < highest)
    \/ (best0 = Some winner /\ score0 = highest).
Proof.
  induction l as [|rate l IH]; simpl; intros best0 score0 winner highest Hfold.
  - inversion Hfold; subst. now right.
  - destruct (score0 <? currentScore tokens rate)%nat eqn:Hlt.
    + apply IH in Hfold. apply Nat.ltb_lt in Hlt.
      destruct Hfold as [(Hin & Hs & Hlt')|[Hb Hs]].
      * left. repeat split; auto. lia.
      * inversion Hb; subst. left. repeat split; auto.
    + apply IH in Hfold.
      destruct Hfold as [(Hin & Hs & Hlt')|[Hb Hs]]; [left|right]; auto.
Qed.

(** A match is a catalog record of the unit asked for, with the positive
    score it was given. *)
Lemma fuzzyMatch_winner description unit ratesData winner n :
  fuzzyMatch description unit ratesData = Return (Some winner, S n) ->
  In winner ratesData /\
  (exists u, Rate.unit winner = VStr u /\ toLowerCase u = unit) /\
  score (tokenize (VStr description)) winner = S n.
Proof.
  unfold fuzzyMatch.
  destruct (relevantRates unit ratesData) as [relevant|e] eqn:Hrel;
    [|discriminate].
  destruct (0 <? List.length relevant)%nat; [|discriminate].
  intros Hfold. inversion Hfold as [Hfold']. clear Hfold.
  apply fold_bestStep_winner in Hfold'.
  destruct Hfold' as [(Hin & Hs & _)|[Habs _]]; [|discriminate].
  destruct (@relevantRates_In unit ratesData relevant Hrel winner Hin)
    as [Hcat Hunit].
  repeat split; auto. rewrite <- currentScore_counts. symmetry. exact Hs.
Qed.

Lemma Forall2_In_r {X Y} (R : X -> Y -> Prop) l1 l2 y :
  Forall2 R l1 l2 -> In y l2 -> exists x, In x l1 /\ R x y.
Proof.
  induction 1 as [|a b l1 l2 Hab _ IH]; intros Hin; [contradiction|].
  destruct Hin as [<-|Hin].
  - exists a. split; [now left|exact Hab].
  - destruct (IH Hin) as (x & Hx & Hr). exists x. split; [now right|exact Hr].
Qed.

(** Every item of a run was priced by section C at some state of the
    request log. *)
Lemma items_priced env fileBuffer ratesData key log result log' item :
  parseAndMatchBOQ env fileBuffer ratesData key log = (Return result, log') ->
  In item (processedItems result) ->
  exists before, pricedAt env ratesData key before item.
Proof.
  intros Hrun Hin.
  destruct (@parseAndMatchBOQ_spec _ _ _ _ _ _ _ Hrun) as [_ Hpriced].
  destruct (@Forall2_In_r _ _ _ _ _ _ Hpriced Hin) as (before & _ & H). eauto.
Qed.

End MatchFacts.

Section Matching.
Import Js Boq Props MoreProps LoopFacts OrchestratorFacts MatcherFacts.
Import MatchFacts Examples.
Local Open Scope list_scope.

(** X3. A catalog record of another unit has no influence on matching:
    with or without it, wherever it stands, the match of any description
    for the unit is the same. *)
Theorem other_units_do_not_matter description unit before record after u :
  Rate.unit record = VStr u ->
  toLowerCase u <> unit ->
  fuzzyMatch description unit (before ++ record :: after)
  = fuzzyMatch description unit (before ++ after).
Proof.
  intros Hu Hother.
  assert (Hskip : relevantRates unit (record :: after)
                  = relevantRates unit after).
  { simpl. unfold unitMatches. rewrite Hu.
    destruct (String.eqb (toLowerCase u) unit) eqn:Heq.
    - apply String.eqb_eq in Heq. contradiction.
    - destruct (relevantRates unit after); reflexivity. }
  unfold fuzzyMatch. now rewrite !relevantRates_app, Hskip.
Qed.

(** A record priced per cubic metre between two records per square
    metre. *)
Lemma other_units_do_not_matter_witness :
  fuzzyMatch "Brick Masonry Walls" "m2"
    ([brickwork] ++
     {| Rate.id := 9; Rate.item_name := VStr "Brick masonry walls";
        Rate.unit := VStr "M3"; Rate.rate_value := VStr "900";
        Rate.keywords := VStr "brick masonry walls" |} :: [blockwork])
  = fuzzyMatch "Brick Masonry Walls" "m2" ([brickwork] ++ [blockwork]).
Proof.
  apply (@other_units_do_not_matter "Brick Masonry Walls" "m2"
           [brickwork] _ [blockwork] "M3").
  - reflexivity.
  - discriminate.
Defined.

(** X4. An item whose source is "Database" carries the rate of a record
    of the catalog: a record whose unit is the item's unit, case ignored,
    and that shares a token with the item's description; its rate is
    [parseFloat] of that record's [rate_value], its total that rate times
    its quantity, and it is not flagged as an AI suggestion. *)
Theorem database_items_come_from_the_catalog
  env fileBuffer ratesData key log result log' item :
  parseAndMatchBOQ env fileBuffer ratesData key log = (Return result, log') ->
  In item (processedItems result) ->
  Item.source item = "Database"%string ->
  exists record u,
    In record ratesData /\
    Rate.unit record = VStr u /\ toLowerCase u = Item.unit item /\
    0 < score (tokenize (VStr (Item.description item))) record /\
    Item.rate item = Some (parseFloat (Rate.rate_value record)) /\
    Item.total item
    = Some (PrimFloat.mul (parseFloat (Rate.rate_value record))
              (Item.quantity item)) /\
    Item.isAiSuggestion item = false.
Proof.
  intros Hrun Hin Hsource.
  destruct (@items_priced _ _ _ _ _ _ _ _ Hrun Hin) as (before & Htotal & Hcase).
  destruct (fuzzyMatch (Item.description item) (Item.unit item) ratesData)
    as [[bestMatch highest]|e] eqn:Hmatch; [|contradiction].
  assert (Hmiss :
            match fst (advice env key before item) with
            | Return (Some suggested) =>
                Item.rate item = Some suggested /\
                Item.isAiSuggestion item = true /\
                Item.source item = "AI Estimate"%string
            | Return None =>
                Item.rate item = None /\
                Item.isAiSuggestion item = false /\
                Item.source item = "Manual"%string
            | Throw _ => False
            end -> False).
  { destruct (fst (advice env key before item)) as [[r|]|e];
      [| |contradiction]; intros (_ & _ & Hs); congruence. }
  destruct bestMatch as [best|]; [destruct highest as [|n]|];
    try (exfalso; apply Hmiss; exact Hcase).
  destruct Hcase as (Hrate & Hai & _).
  destruct (@fuzzyMatch_winner _ _ _ _ _ Hmatch) as (Hcat & (u & Hu & Hlow) & Hscore).
  exists best, u. repeat split; auto.
  - rewrite Hscore. lia.
  - rewrite Htotal, Hrate. reflexivity.
Qed.

Lemma database_items_come_from_the_catalog_witness :
  exists record u,
    In record [brickwork; plaster] /\
    Rate.unit record = VStr u /\ toLowerCase u = "m2"%string /\
    0 < score (tokenize (VStr "Brick Masonry Walls")) record /\
    Some 45.5%float = Some (parseFloat (Rate.rate_value record)) /\
    Some 38675%float
    = Some (PrimFloat.mul (parseFloat (Rate.rate_value record)) 850) /\
    false = false.
Proof.
  refine (@database_items_come_from_the_catalog
            (envOf (Return [sheetMixed]) fencedReply) []
            [brickwork; plaster] VUndefined quiet
            (match fst (parseAndMatchBOQ
                          (envOf (Return [sheetMixed]) fencedReply) []
                          [brickwork; plaster] VUndefined quiet) with
             | Return r => r
             | Throw _ => emptyResult
             end)
            quiet
            {| Item.item_no := "1"; Item.description := "Brick Masonry Walls";
               Item.quantity := 850; Item.unit := "m2";
               Item.rate := Some 45.5%float; Item.total := Some 38675%float;
               Item.isAiSuggestion := false; Item.source := "Database" |}
            _ _ eq_refl).
  - vm_compute. reflexivity.
  - vm_compute. left. reflexivity.
Defined.

End Matching.

(** ** Part XVI. Further properties of the orchestrator *)

Module RunFacts.
Import Js Boq Props MoreProps LoopFacts OrchestratorFacts MatcherFacts.
Import MatchFacts.
Local Open Scope list_scope.

(** How section C sets the provenance of an item. *)
Lemma pricedAt_flags env ratesData key before item :
  pricedAt env ratesData key before item ->
  (isHit ratesData item = true /\ Item.source item = "Database"%string /\
   Item.isAiSuggestion item = false /\ Item.rate item <> None)
  \/
  (isHit ratesData item = false /\
   ((Item.source item = "AI Estimate"%string /\
     Item.isAiSuggestion item = true /\ Item.rate item <> None)
    \/
    (Item.source item = "Manual"%string /\
     Item.isAiSuggestion item = false /\ Item.rate item = None))).
Proof.
  unfold pricedAt, isHit. intros [_ Hcase].
  destruct (fuzzyMatch (Item.description item) (Item.unit item) ratesData)
    as [[bestMatch highest]|e]; [|contradiction].
  assert (Hmiss :
            match fst (advice env key before item) with
            | Return (Some suggested) =>
                Item.rate item = Some suggested /\
                Item.isAiSuggestion item = true /\
                Item.source item = "AI Estimate"%string
            | Return None =>
                Item.rate item = None /\
                Item.isAiSuggestion item = false /\
                Item.source item = "Manual"%string
            | Throw _ => False
            end ->
            (Item.source item = "AI Estimate"%string /\
             Item.isAiSuggestion item = true /\ Item.rate item <> None)
            \/
            (Item.source item = "Manual"%string /\
             Item.isAiSuggestion item = false /\ Item.rate item = None)).
  { destruct (fst (advice env key before item)) as [[r|]|e];
      [| |contradiction]; intros (Hr & Hai & Hs); [left|right];
      repeat split; auto. rewrite Hr. discriminate. }
  destruct bestMatch as [best|]; [destruct highest as [|n]|].
  - right. split; [reflexivity|]. now apply Hmiss.
  - left. destruct Hcase as (Hr & Hai & Hs). repeat split; auto.
    rewrite Hr. discriminate.
  - right. split; [reflexivity|]. apply Hmiss. destruct highest; exact Hcase.
Qed.

(** The request log after an item's row. *)
Lemma logAfter_requests env ratesData key before item :
  pricedAt env ratesData key before item ->
  logAfter env ratesData key before item
  = if truthy key then before ++ requestsFor key [item] else before.
Proof.
  intros Hpriced.
  unfold logAfter, requestsFor, fromDatabase. simpl.
  destruct (@pricedAt_flags _ _ _ _ _ Hpriced)
    as [(Hhit & Hs & _)|(Hhit & [(Hs & _)|(Hs & _)])];
    rewrite Hhit, Hs; simpl.
  - destruct (truthy key); [now rewrite app_nil_r|reflexivity].
  - unfold advice, getAiRateSuggestion.
    destruct (truthy key) eqn:Hkey; simpl; [|reflexivity].
    unfold tryCatch.
    assert (H := adviseBody_log env (geminiApiUrl key)
                   (prompt (Item.description item) (Item.unit item)) before).
    destruct (adviseBody env (geminiApiUrl key)
                (prompt (Item.description item) (Item.unit item)) before)
      as [[r|e] l]; exact H.
  - unfold advice, getAiRateSuggestion.
    destruct (truthy key) eqn:Hkey; simpl; [|reflexivity].
    unfold tryCatch.
    assert (H := adviseBody_log env (geminiApiUrl key)
                   (prompt (Item.description item) (Item.unit item)) before).
    destruct (adviseBody env (geminiApiUrl key)
                (prompt (Item.description item) (Item.unit item)) before)
      as [[r|e] l]; exact H.
Qed.

Lemma logAtEnd_requests env ratesData key batch :
  forall log,
    Forall2 (pricedAt env ratesData key)
      (logsBefore env ratesData key log batch) batch ->
    logAtEnd env ratesData key log batch
    = if truthy key then log ++ requestsFor key batch else log.
Proof.
  induction batch as [|item batch IH]; intros log Hpriced; simpl.
  - destruct (truthy key); [now rewrite app_nil_r|reflexivity].
  - simpl in Hpriced. inversion Hpriced as [|? ? ? ? Hitem Hrest]; subst.
    unfold logAtEnd in *. simpl. rewrite (IH _ Hrest) || rewrite (@IH _ Hrest).
    rewrite (@logAfter_requests _ _ _ _ _ Hitem).
    destruct (truthy key); [|reflexivity].
    unfold requestsFor. simpl.
    destruct (negb (fromDatabase item)); simpl;
      now rewrite <- ?app_assoc, ?app_nil_r.
Qed.

Lemma fuzzyMatch_throw_any description unit ratesData e description' unit' :
  fuzzyMatch description unit ratesData = Throw e ->
  fuzzyMatch description' unit' ratesData = Throw e.
Proof.
  unfold fuzzyMatch.
  destruct (relevantRates unit ratesData) as [relevant|e0] eqn:Hrel.
  - destruct (0 <? List.length relevant)%nat; discriminate.
  - intros H. inversion H; subst.
    now rewrite (@relevantRates_throw_any_unit ratesData unit unit' e Hrel).
Qed.

(** A loop that throws has sent nothing and priced nothing: the throw is
    the matcher's, at the first valid row. *)
Lemma processRows_throw_log env ratesData key rows :
  forall st log e log',
    processRows env ratesData key rows st log = (Throw e, log') ->
    log' = log.
Proof.
  induction rows as [|row rows IH]; intros st log e log' Hrun; simpl in Hrun.
  - discriminate.
  - unfold bind in Hrun.
    destruct (processRow_cases env ratesData key st row log)
      as [[_ H]|[[_ (e' & _ & H)]|[_ (item & _ & Hpriced & H)]]];
      rewrite H in Hrun.
    + now apply IH in Hrun.
    + now inversion Hrun.
    + exfalso.
      assert (Hspec := processRows_spec env ratesData key rows (push st item)
                         (logAfter env ratesData key log item)).
      rewrite Hrun in Hspec. destruct Hspec as (row' & _ & _ & Hthrow).
      destruct Hpriced as [_ Hcase].
      rewrite (@fuzzyMatch_throw_any _ _ _ _ (Item.description item)
                 (Item.unit item) Hthrow) in Hcase.
      exact Hcase.
Qed.

(** The outcome of a run, with its request log. *)
Lemma parseAndMatchBOQ_log env fileBuffer ratesData key log result log' :
  parseAndMatchBOQ env fileBuffer ratesData key log = (Return result, log') ->
  log' = logAtEnd env ratesData key log (processedItems result).
Proof.
  intros Hrun.
  destruct (parseAndMatchBOQ_cases env fileBuffer ratesData key log)
    as [(e & _ & _ & Hempty)|(sheets & _ & _ & Hloop)].
  - rewrite Hempty in Hrun. now inversion Hrun.
  - assert (Hspec := processRows_spec env ratesData key
                       (skipn 1 (firstSheet sheets)) initial log).
    destruct (processRows env ratesData key (skipn 1 (firstSheet sheets))
                initial log) as [[st|e] log''] eqn:Hrows.
    + rewrite Hloop in Hrun. inversion Hrun; subst.
      destruct Hspec as (new & Hitems & _ & _ & _ & Hlog).
      simpl in Hitems |- *. now rewrite Hitems.
    + rewrite Hloop in Hrun. inversion Hrun; subst.
      now apply processRows_throw_log in Hrows.
Qed.

Lemma isWhiteSpace_lower c : isWhiteSpace (toLowerChar c) = isWhiteSpace c.
Proof. destruct c as [[] [] [] [] [] [] [] []]; reflexivity. Qed.

Lemma trimStart_clean s : startsClean (trimStart s) = true.
Proof.
  induction s as [|c s IH]; simpl; [reflexivity|].
  destruct (isWhiteSpace c) eqn:Hws; [exact IH|]. simpl. now rewrite Hws.
Qed.

Lemma trimEnd_idempotent s : trimEnd (trimEnd s) = trimEnd s.
Proof.
  induction s as [|c s IH]; simpl; [reflexivity|].
  destruct (isWhiteSpace c && isEmpty (trimEnd s)) eqn:Hc; simpl.
  - reflexivity.
  - now rewrite IH, Hc.
Qed.

Lemma trimStart_trimEnd s :
  startsClean s = true -> trimStart (trimEnd s) = trimEnd s.
Proof.
  destruct s as [|c s]; simpl; [reflexivity|].
  intros Hc. apply negb_true_iff in Hc. rewrite Hc. simpl. now rewrite Hc.
Qed.

Lemma trim_idempotent s : trim (trim s) = trim s.
Proof.
  unfold trim.
  rewrite (@trimStart_trimEnd (trimStart s) (trimStart_clean s)).
  apply trimEnd_idempotent.
Qed.

Lemma isEmpty_lower s : isEmpty (toLowerCase s) = isEmpty s.
Proof. destruct s; reflexivity. Qed.

Lemma trimStart_lower s : trimStart (toLowerCase s) = toLowerCase (trimStart s).
Proof.
  unfold toLowerCase. induction s as [|c s IH]; simpl; [reflexivity|].
  rewrite isWhiteSpace_lower. destruct (isWhiteSpace c); [exact IH|reflexivity].
Qed.

Lemma trimEnd_lower s : trimEnd (toLowerCase s) = toLowerCase (trimEnd s).
Proof.
  induction s as [|c s IH]; simpl; [reflexivity|].
  fold (toLowerCase s). rewrite IH, isWhiteSpace_lower, isEmpty_lower.
  destruct (isWhiteSpace c && isEmpty (trimEnd s)); reflexivity.
Qed.

Lemma trim_lower s : trim (toLowerCase s) = toLowerCase (trim s).
Proof. unfold trim. now rewrite trimStart_lower, trimEnd_lower. Qed.

End RunFacts.

Section Runs.
Import Js Boq Props MoreProps LoopFacts OrchestratorFacts MatcherFacts.
Import MatchFacts RunFacts Examples.
Local Open Scope list_scope.

(** X5. The provenance fields of every item agree: the source is one of
    "Database", "AI Estimate" and "Manual"; the AI flag is set exactly
    for "AI Estimate"; the rate is null exactly for "Manual"; and the total
    is null exactly when the rate is, being otherwise the rate times the
    quantity. *)
Theorem provenance_fields_agree
  env fileBuffer ratesData key log result log' item :
  parseAndMatchBOQ env fileBuffer ratesData key log = (Return result, log') ->
  In item (processedItems result) ->
  (Item.source item = "Database" \/ Item.source item = "AI Estimate" \/
   Item.source item = "Manual")%string /\
  (Item.isAiSuggestion item = true <->
   Item.source item = "AI Estimate"%string) /\
  (Item.rate item = None <-> Item.source item = "Manual"%string) /\
  (Item.total item = None <-> Item.rate item = None) /\
  (forall rate,
     Item.rate item = Some rate ->
     Item.total item = Some (PrimFloat.mul rate (Item.quantity item))).
Proof.
  intros Hrun Hin.
  destruct (@items_priced _ _ _ _ _ _ _ _ Hrun Hin) as (before & Hpriced).
  assert (Htotal := proj1 Hpriced).
  destruct (@pricedAt_flags _ _ _ _ _ Hpriced)
    as [(_ & Hs & Hai & Hr)|(_ & [(Hs & Hai & Hr)|(Hs & Hai & Hr)])];
    rewrite Hs, Hai; repeat split; auto;
    try (intros; discriminate); try (intros; contradiction);
    try (intros H; rewrite Htotal, H; reflexivity);
    try (destruct (Item.rate item); simpl in Htotal;
         intros; congruence).
Qed.

Lemma provenance_fields_agree_witness :
  let item :=
    {| Item.item_no := "2"; Item.description := "Install solar panel array";
       Item.quantity := 10; Item.unit := "unit";
       Item.rate := Some 15000%float; Item.total := Some 150000%float;
       Item.isAiSuggestion := true; Item.source := "AI Estimate" |} in
  (Item.isAiSuggestion item = true <->
   Item.source item = "AI Estimate"%string) /\
  (Item.rate item = None <-> Item.source item = "Manual"%string).
Proof.
  intros item.
  refine (let H :=
            @provenance_fields_agree
              (envOf (Return [sheetMixed]) fencedReply) []
              [brickwork; plaster] (VStr "KEY") quiet
              (match fst (parseAndMatchBOQ
                            (envOf (Return [sheetMixed]) fencedReply) []
                            [brickwork; plaster] (VStr "KEY") quiet) with
               | Return r => r
               | Throw _ => emptyResult
               end)
              [requestFor "Install solar panel array" "unit" (VStr "KEY")]
              item _ _ in
          conj (proj1 (proj2 H)) (proj1 (proj2 (proj2 H)))).
  - vm_compute. reflexivity.
  - vm_compute. right. left. reflexivity.
Defined.

(** X6. The run sends one request to the advisor for each item it does
    not price from the catalog, in row order, and no other: without a
    usable API key it sends none, with one the log of requests grows by
    exactly the requests for those items. *)
Theorem one_request_per_unmatched_item
  env fileBuffer ratesData key log result log' :
  parseAndMatchBOQ env fileBuffer ratesData key log = (Return result, log') ->
  log' = if truthy key
         then log ++ requestsFor key (processedItems result)
         else log.
Proof.
  intros Hrun.
  rewrite (@parseAndMatchBOQ_log _ _ _ _ _ _ _ Hrun).
  apply logAtEnd_requests.
  exact (proj2 (@parseAndMatchBOQ_spec _ _ _ _ _ _ _ Hrun)).
Qed.

(** The mixed sheet with a key: of its three items only the solar panels
    miss the catalog, and one request is sent. *)
Lemma one_request_per_unmatched_item_witness :
  snd (parseAndMatchBOQ (envOf (Return [sheetMixed]) fencedReply) []
         [brickwork; plaster] (VStr "KEY") quiet)
  = [requestFor "Install solar panel array" "unit" (VStr "KEY")].
Proof.
  refine (@one_request_per_unmatched_item
            (envOf (Return [sheetMixed]) fencedReply) []
            [brickwork; plaster] (VStr "KEY") quiet
            (match fst (parseAndMatchBOQ
                          (envOf (Return [sheetMixed]) fencedReply) []
                          [brickwork; plaster] (VStr "KEY") quiet) with
             | Return r => r
             | Throw _ => emptyResult
             end)
            _ _).
  vm_compute. reflexivity.
Defined.

(** X7. The fields of every item are normalized: item number,
    description and unit carry no white space at either end, the
    description and the unit are not empty, the unit is in lower case, and
    the quantity is a number. *)
Theorem item_fields_are_normalized
  env fileBuffer ratesData key log result log' item :
  parseAndMatchBOQ env fileBuffer ratesData key log = (Return result, log') ->
  In item (processedItems result) ->
  trim (Item.item_no item) = Item.item_no item /\
  trim (Item.description item) = Item.description item /\
  Item.description item <> EmptyString /\
  trim (Item.unit item) = Item.unit item /\
  toLowerCase (Item.unit item) = Item.unit item /\
  Item.unit item <> EmptyString /\
  isNaN (Item.quantity item) = false.
Proof.
  intros Hrun Hin.
  assert (Hrow : exists row, validRow row = true /\ itemOfRow row item).
  { destruct (parseAndMatchBOQ_cases env fileBuffer ratesData key log)
      as [(e & _ & _ & Hempty)|(sheets & _ & _ & Hloop)].
    - rewrite Hempty in Hrun. inversion Hrun; subst. contradiction.
    - assert (Hspec := processRows_spec env ratesData key
                         (skipn 1 (firstSheet sheets)) initial log).
      destruct (processRows env ratesData key (skipn 1 (firstSheet sheets))
                  initial log) as [[st|e] log''];
        rewrite Hloop in Hrun; inversion Hrun; subst;
        [|contradiction].
      destruct Hspec as (new & Hitems & _ & Hrows & _).
      simpl in Hitems, Hin. rewrite Hitems in Hin.
      destruct (@Forall2_In_r _ _ _ _ _ _ Hrows Hin) as (row & Hrow & Hfields).
      apply filter_In in Hrow. exists row. tauto. }
  destruct Hrow as (row & Hvalid & Hno & Hd & Hq & Hu).
  unfold validRow in Hvalid. apply negb_true_iff in Hvalid.
  apply orb_false_iff in Hvalid. destruct Hvalid as [Hvalid Hunit].
  apply orb_false_iff in Hvalid. destruct Hvalid as [Hdesc Hqty].
  rewrite Hno, Hd, Hq, Hu. unfold rowItemNo, rowDescription, rowUnit.
  repeat split.
  - apply trim_idempotent.
  - apply trim_idempotent.
  - intros Habs. unfold rowDescription in Hdesc. now rewrite Habs in Hdesc.
  - now rewrite trim_lower, trim_idempotent.
  - apply toLowerCase_idempotent.
  - intros Habs. unfold rowUnit in Hunit. now rewrite Habs in Hunit.
  - exact Hqty.
Qed.

Lemma item_fields_are_normalized_witness :
  trim "m2" = "m2"%string /\ toLowerCase "m2" = "m2"%string.
Proof.
  refine (let H :=
            @item_fields_are_normalized
              (envOf (Return [sheetMixed]) fencedReply) []
              [brickwork; plaster] VUndefined quiet
              (match fst (parseAndMatchBOQ
                            (envOf (Return [sheetMixed]) fencedReply) []
                            [brickwork; plaster] VUndefined quiet) with
               | Return r => r
               | Throw _ => emptyResult
               end)
              quiet
              {| Item.item_no := "1";
                 Item.description := "Brick Masonry Walls";
                 Item.quantity := 850; Item.unit := "m2";
                 Item.rate := Some 45.5%float;
                 Item.total := Some 38675%float;
                 Item.isAiSuggestion := false; Item.source := "Database" |}
              _ _ in
          conj (proj1 (proj2 (proj2 (proj2 H))))
            (proj1 (proj2 (proj2 (proj2 (proj2 H)))))).
  - vm_compute. reflexivity.
  - vm_compute. left. reflexivity.
Defined.

(** X8. A workbook without sheets, with an empty first sheet, or with a
    first sheet of one row (the header) resolves with no item and total 0,
    and no request is sent. *)
Theorem header_only_sheet_resolves_empty
  env fileBuffer ratesData key log sheets :
  xlsx_read env fileBuffer = Return sheets ->
  (List.length (firstSheet sheets) <= 1)%nat ->
  parseAndMatchBOQ env fileBuffer ratesData key log
  = (Return {| processedItems := []; projectTotal := zero |}, log).
Proof.
  intros Hread Hshort.
  destruct (parseAndMatchBOQ_cases env fileBuffer ratesData key log)
    as [(e & Hthrow & _)|(sheets' & Hread' & _ & Hloop)]; [congruence|].
  assert (sheets' = sheets) by congruence. subst sheets'.
  assert (Hnone : skipn 1 (firstSheet sheets) = []).
  { destruct (firstSheet sheets) as [|header [|row rest]];
      simpl in *; try reflexivity. lia. }
  rewrite Hnone in Hloop. exact Hloop.
Qed.

Lemma header_only_sheet_resolves_empty_witness :
  parseAndMatchBOQ (envOf (Return [[header]; sheetMixed]) fencedReply) []
    [brickwork; plaster] (VStr "KEY") quiet
  = (Return {| processedItems := []; projectTotal := zero |}, quiet).
Proof.
  apply (@header_only_sheet_resolves_empty
           (envOf (Return [[header]; sheetMixed]) fencedReply) []
           [brickwork; plaster] (VStr "KEY") quiet [[header]; sheetMixed]).
  - reflexivity.
  - simpl. lia.
Defined.

End Runs.

(** ** Part XVII. Further properties of the rate limiter *)

Module QueueFacts.
Import RateLimiter LimiterFacts LimiterRuns.
Local Open Scope list_scope.
Local Open Scope Z_scope.

Section Facts.
Variable A : Type.
Variable delay : Z.

Lemma settlements_app (t1 t2 : list (Event A)) :
  settlements (t1 ++ t2) = settlements t1 ++ settlements t2.
Proof. unfold settlements. apply flat_map_app. Qed.

(** Where a reachable limiter stands, without the trace. *)
Lemma reachable_phase start (l : Loop A) :
  reachable delay start l ->
  (isProcessing (limiter l) = false /\ awaiting l = [] /\ timers l = [] /\
   queue (limiter l) = [])
  \/ (isProcessing (limiter l) = true /\ timers l = [] /\
      exists k, awaiting l = [k])
  \/ (isProcessing (limiter l) = true /\ awaiting l = [] /\
      exists due, timers l = [due]).
Proof.
  intros Hreach.
  destruct (reachable_invariant Hreach) as (_ & _ & _ & Hphase).
  unfold phase in Hphase.
  destruct (scan (None, None) (trace l)) as [running last].
  cbv beta iota zeta in Hphase.
  destruct Hphase as [(Hp & Ha & Ht & Hq & _)
                     |[(Hp & k & s & Ha & Ht & _)|(Hp & e & Ha & Ht & _)]].
  - left. repeat split; auto.
  - right. left. repeat split; eauto.
  - right. right. repeat split; eauto.
Qed.

(** [process] on a busy limiter returns at its guard. *)
Lemma process_busy (l : Loop A) :
  isProcessing (limiter l) = true -> process l = l.
Proof. intros Hp. unfold process. now rewrite Hp. Qed.

(** What [process] adds to the tasks started and to those awaited is the
    same. *)
Lemma process_started (l : Loop A) :
  exists new,
    started (trace (process l)) = started (trace l) ++ new /\
    awaiting (process l) = awaiting l ++ new /\
    settlements (trace (process l)) = settlements (trace l).
Proof.
  unfold process.
  destruct (isProcessing (limiter l) || (List.length (queue (limiter l)) =? 0)%nat).
  - exists []. now rewrite !app_nil_r.
  - destruct (queue (limiter l)) as [|ticket rest].
    + exists []. now rewrite !app_nil_r.
    + exists [ticket]. simpl.
      rewrite started_app, settlements_app. simpl. now rewrite app_nil_r.
Qed.

(** The tasks started are those settled, in that order, then the one in
    progress. *)
Lemma started_settled start (l : Loop A) :
  reachable delay start l ->
  started (trace l) = map fst (settlements (trace l)) ++ awaiting l.
Proof.
  induction 1 as [|l l' Hreach IH Hstep]; [reflexivity|].
  destruct Hstep as [ticket l|ticket outcome l Hin|due l Hin Hdue|dt l Hdt].
  - unfold add.
    match goal with
    | |- context [process ?x] =>
        destruct (process_started x) as (new & Hs & Ha & Hd)
    end.
    rewrite Hs, Ha, Hd. simpl.
    rewrite started_app, settlements_app. simpl.
    rewrite !app_nil_r, IH. now rewrite app_assoc.
  - destruct (reachable_phase Hreach)
      as [(_ & Ha & _)|[(_ & _ & k & Ha)|(_ & Ha & _)]];
      try (rewrite Ha in Hin; contradiction).
    rewrite Ha in Hin. destruct Hin as [->|[]].
    unfold resume. simpl.
    rewrite started_app, settlements_app, map_app, IH, Ha. simpl.
    rewrite Nat.eqb_refl.
    destruct outcome; simpl; now rewrite !app_nil_r.
  - unfold timeout.
    match goal with
    | |- context [process ?x] =>
        destruct (process_started x) as (new & Hs & Ha & Hd)
    end.
    rewrite Hs, Ha, Hd. simpl. rewrite IH. now rewrite app_assoc.
  - exact IH.
Qed.

(** A turn in which nothing settles, while a task is in progress. *)
Lemma waitingStep_blocked start (l l' : Loop A) k :
  reachable delay start l -> awaiting l = [k] -> waitingStep l l' ->
  reachable delay start l' /\ awaiting l' = [k] /\
  trace l' = trace l ++ map (Enqueued A (now l))
                          (skipn (List.length (queue (limiter l)))
                             (queue (limiter l'))) /\
  firstn (List.length (queue (limiter l))) (queue (limiter l'))
  = queue (limiter l).
Proof.
  intros Hreach Hk Hstep.
  destruct (reachable_phase Hreach)
    as [(_ & Ha & _)|[(Hp & Ht & _)|(_ & Ha & _)]]; try congruence.
  destruct Hstep as [ticket l|due l Hin Hdue|dt l Hdt].
  - split; [apply reach_step with (l := l); [exact Hreach|apply step_add]|].
    unfold add. rewrite process_busy by (simpl; exact Hp). simpl.
    rewrite skipn_app, skipn_all, Nat.sub_diag, firstn_app, firstn_all,
      Nat.sub_diag. simpl. now rewrite app_nil_r.
  - rewrite Ht in Hin. contradiction.
  - split; [apply reach_step with (l := l); [exact Hreach|now apply step_tick]|].
    simpl. rewrite skipn_all, firstn_all. simpl. now rewrite app_nil_r.
Qed.

End Facts.
End QueueFacts.

Section Queue.
Import RateLimiter LimiterFacts LimiterRuns QueueFacts Examples.
Local Open Scope list_scope.
Local Open Scope Z_scope.

(** X9. What [add] does in a state the event loop can reach: on an idle
    limiter the task starts at once, in the same turn, and the queue stays
    empty; on a busy one, be it awaiting a task or cooling down, the entry
    goes to the end of the queue and nothing else changes. *)
Theorem add_starts_or_queues (A : Type) delay start (l : Loop A) ticket :
  reachable delay start l ->
  if isProcessing (limiter l)
  then
    trace (add ticket l) = trace l ++ [Enqueued A (now l) ticket] /\
    queue (limiter (add ticket l)) = queue (limiter l) ++ [ticket] /\
    awaiting (add ticket l) = awaiting l /\
    timers (add ticket l) = timers l /\
    isProcessing (limiter (add ticket l)) = true
  else
    trace (add ticket l)
    = trace l ++ [Enqueued A (now l) ticket; Started A (now l) ticket] /\
    queue (limiter (add ticket l)) = [] /\
    awaiting (add ticket l) = [ticket] /\
    timers (add ticket l) = [] /\
    isProcessing (limiter (add ticket l)) = true.
Proof.
  intros Hreach.
  destruct (reachable_phase Hreach)
    as [(Hp & Ha & Ht & Hq)|[(Hp & _)|(Hp & _)]]; rewrite Hp.
  - unfold add, process. simpl. rewrite Hp, Hq, Ha, Ht. simpl.
    rewrite <- app_assoc. repeat split.
  - unfold add. rewrite process_busy by (simpl; exact Hp). simpl.
    repeat split; assumption.
  - unfold add. rewrite process_busy by (simpl; exact Hp). simpl.
    repeat split; assumption.
Qed.

(** The first request of a process starts at once; a second one, made
    while the first is in progress, waits. *)
Lemma add_starts_or_queues_witness :
  trace (add 1%nat (boot (option float) cooldown 0))
  = [Enqueued (option float) 0 1%nat; Started (option float) 0 1%nat] /\
  queue (limiter (add 2%nat (add 1%nat (boot (option float) cooldown 0))))
  = [2%nat].
Proof.
  split.
  - exact (proj1 (@add_starts_or_queues (option float) cooldown 0
                    (boot (option float) cooldown 0) 1%nat
                    (reach_boot _ _ _))).
  - exact (proj1 (proj2
             (@add_starts_or_queues (option float) cooldown 0
                (add 1%nat (boot (option float) cooldown 0)) 2%nat
                (reach_step (reach_boot _ _ _) (step_add 1%nat _))))).
Defined.

(** X10. While the task in progress does not settle, nothing else starts:
    whatever is added, however much time passes, the same task is awaited,
    no timer can fire, the trace grows by enqueuings only and the queue
    only at its end. *)
Theorem unsettled_task_blocks_the_queue
  (A : Type) delay start (l l' : Loop A) k :
  reachable delay start l -> awaiting l = [k] -> waitingRun l l' ->
  reachable delay start l' /\
  awaiting l' = [k] /\
  started (trace l') = started (trace l) /\
  settlements (trace l') = settlements (trace l) /\
  exists added,
    queue (limiter l') = queue (limiter l) ++ added /\
    enqueued (trace l') = enqueued (trace l) ++ added.
Proof.
  intros Hreach Hk Hrun.
  induction Hrun as [l|l l' l'' Hrun IH Hstep].
  - repeat split; auto. exists []. now rewrite !app_nil_r.
  - destruct (IH Hreach Hk) as (Hreach' & Hk' & Hs & Hd & added & Hq & He).
    destruct (waitingStep_blocked Hreach' Hk' Hstep)
      as (Hreach'' & Hk'' & Htrace & Hfirst).
    split; [exact Hreach''|]. split; [exact Hk''|].
    set (new := skipn (List.length (queue (limiter l'))) (queue (limiter l'')))
      in *.
    assert (Hnone : forall time (tickets : list Ticket),
               started (map (Enqueued A time) tickets) = [] /\
               settlements (map (Enqueued A time) tickets) = [] /\
               enqueued (map (Enqueued A time) tickets) = tickets).
    { intros time tickets.
      induction tickets as [|x tickets (H1 & H2 & H3)]; simpl; auto.
      repeat split; auto. unfold enqueued in *. simpl. now rewrite H3. }
    destruct (Hnone (now l') new) as (Hn1 & Hn2 & Hn3).
    rewrite Htrace, started_app, settlements_app, enqueued_app, Hn1, Hn2, Hn3,
      !app_nil_r.
    split; [exact Hs|]. split; [exact Hd|].
    exists (added ++ new).
    rewrite !app_assoc, <- Hq, <- He. split; [|reflexivity].
    rewrite <- Hfirst at 1. subst new. symmetry. apply firstn_skipn.
Qed.

(** A second and a third request made while the first hangs: a minute
    later it is still the only one started. *)
Lemma unsettled_task_blocks_the_queue_witness :
  let l := add 1%nat (boot (option float) cooldown 0) in
  let l' := tick 60000 (add 3%nat (add 2%nat l)) in
  awaiting l' = [1%nat] /\ started (trace l') = [1%nat].
Proof.
  intros l l'.
  assert (Hrun : waitingRun l l').
  { subst l'.
    apply run_more with (l' := add 3%nat (add 2%nat l));
      [|apply wait_tick; lia].
    apply run_more with (l' := add 2%nat l); [|apply wait_add].
    apply run_more with (l' := l); [|apply wait_add].
    apply run_done. }
  destruct (@unsettled_task_blocks_the_queue (option float) cooldown 0 l l'
              1%nat
              (reach_step (reach_boot _ _ _) (step_add 1%nat _))
              eq_refl Hrun) as (_ & Ha & Hs & _).
  split; [exact Ha|exact Hs].
Defined.

(** X11. No task is lost or run twice: in every state the event loop can
    reach, the tasks enqueued are, in order, those settled, then the one in
    progress, then those still queued; in particular tasks settle in the
    order they were enqueued. *)
Theorem no_task_is_lost (A : Type) delay start (l : Loop A) :
  reachable delay start l ->
  enqueued (trace l)
  = map fst (settlements (trace l)) ++ awaiting l ++ queue (limiter l).
Proof.
  intros Hreach.
  destruct (reachable_invariant Hreach) as (_ & _ & Hfifo & _).
  rewrite <- Hfifo, (started_settled Hreach). now rewrite app_assoc.
Qed.

Lemma no_task_is_lost_witness :
  enqueued (trace twoRequests)
  = map fst (settlements (trace twoRequests)) ++ awaiting twoRequests
    ++ queue (limiter twoRequests).
Proof.
  exact (@no_task_is_lost (option float) cooldown 0 twoRequests
           twoRequests_reachable).
Defined.

(** X12. The limiter is idle exactly when no task is in progress and no
    cooldown timer is armed; an idle limiter has an empty queue, so no
    entry waits while nothing runs; and a task in progress and an armed
    timer exclude each other, there being at most one of either. *)
Theorem idle_limiter_has_nothing_pending
  (A : Type) delay start (l : Loop A) :
  reachable delay start l ->
  (isProcessing (limiter l) = false <-> awaiting l = [] /\ timers l = []) /\
  (isProcessing (limiter l) = false -> queue (limiter l) = []) /\
  (List.length (awaiting l) + List.length (timers l) <= 1)%nat.
Proof.
  intros Hreach.
  destruct (reachable_phase Hreach)
    as [(Hp & Ha & Ht & Hq)|[(Hp & Ht & k & Ha)|(Hp & Ha & due & Ht)]];
    rewrite Hp, Ha, Ht; simpl; repeat split; auto; try lia;
    try discriminate; intros [H1 H2]; discriminate.
Qed.

Lemma idle_limiter_has_nothing_pending_witness :
  (List.length (awaiting twoRequests) + List.length (timers twoRequests)
   <= 1)%nat.
Proof.
  exact (proj2 (proj2 (@idle_limiter_has_nothing_pending (option float)
                         cooldown 0 twoRequests twoRequests_reachable))).
Defined.

End Queue.

(** ** Part XVIII. [utils/projectFinancials.js]: actual costs by project *)

Module MapFacts.
Import Js JsLib Financials.
Local Open Scope list_scope.

Lemma sf_eqb_eq a b : sf_eqb a b = true <-> a = b.
Proof.
  destruct a as [s|s| |s m e], b as [s'|s'| |s' m' e']; simpl;
    try (split; [discriminate|congruence]);
    try (rewrite Bool.eqb_true_iff; split; congruence).
  - split; reflexivity.
  - rewrite !andb_true_iff, Bool.eqb_true_iff, Pos.eqb_eq, Z.eqb_eq.
    split; [intros [[-> ->] ->]; reflexivity|intros H; inversion H; auto].
Qed.

Lemma key_eqb_eq a b : key_eqb a b = true <-> a = b.
Proof.
  destruct a, b; simpl; try (split; [discriminate|congruence]).
  - split; reflexivity.
  - split; reflexivity.
  - rewrite Bool.eqb_true_iff. split; congruence.
  - rewrite sf_eqb_eq. split; congruence.
  - rewrite String.eqb_eq. split; congruence.
Qed.

Lemma key_eqb_refl a : key_eqb a a = true.
Proof. now apply key_eqb_eq. Qed.

Lemma key_eqb_sym a b : key_eqb a b = key_eqb b a.
Proof.
  destruct (key_eqb a b) eqn:H1, (key_eqb b a) eqn:H2; auto.
  - apply key_eqb_eq in H1. subst. now rewrite key_eqb_refl in H2.
  - apply key_eqb_eq in H2. subst. now rewrite key_eqb_refl in H1.
Qed.

(** Two keys equal to a third are equal to the same keys. *)
Lemma sameValueZero_trans a b c :
  sameValueZero a b = true -> sameValueZero a c = sameValueZero b c.
Proof. unfold sameValueZero. intros H. apply key_eqb_eq in H. now rewrite H. Qed.

(** The key [set] stores is the key it was given, up to the sign of
    zero. *)
Lemma keyOf_storedKey k : keyOf (storedKey k) = keyOf k.
Proof.
  destruct k as [| | |x|s]; try reflexivity.
  simpl. destruct (Prim2SF x) eqn:Hx; simpl; rewrite ?Hx; reflexivity.
Qed.

Lemma mapGet_mapSet k k' v m :
  mapGet k (mapSet k' v m)
  = if sameValueZero k k' then Some v else mapGet k m.
Proof.
  induction m as [|[k0 v0] m IH]; simpl.
  - unfold sameValueZero at 1. rewrite keyOf_storedKey.
    fold (sameValueZero k k'). reflexivity.
  - destruct (sameValueZero k' k0) eqn:H0; simpl.
    + destruct (sameValueZero k k') eqn:Hk.
      * now rewrite (@sameValueZero_trans _ _ k0 Hk), H0.
      * destruct (sameValueZero k k0) eqn:Hk0; [|reflexivity].
        unfold sameValueZero in *.
        apply key_eqb_eq in H0, Hk0. rewrite Hk0, <- H0, key_eqb_refl in Hk.
        discriminate.
    + rewrite IH. destruct (sameValueZero k k0) eqn:Hk0; [|reflexivity].
      destruct (sameValueZero k k') eqn:Hk; [|reflexivity].
      unfold sameValueZero in *.
      apply key_eqb_eq in Hk0, Hk. rewrite <- Hk, Hk0, key_eqb_refl in H0.
      discriminate.
Qed.

Lemma keysOf_mapSet k v m :
  keysOf (mapSet k v m)
  = if existsb (key_eqb (keyOf k)) (keysOf m) then keysOf m
    else keysOf m ++ [keyOf k].
Proof.
  induction m as [|[k0 v0] m IH]; simpl.
  - now rewrite keyOf_storedKey.
  - fold (sameValueZero k k0).
    destruct (sameValueZero k k0) eqn:H0; simpl; [reflexivity|].
    fold (keysOf (mapSet k v m)). rewrite IH.
    now destruct (existsb (key_eqb (keyOf k)) (keysOf m)).
Qed.

Lemma keysOf_fold costs :
  forall acc,
    keysOf (fold_left addCost costs acc)
    = fold_left
        (fun seen k => if existsb (key_eqb k) seen then seen else seen ++ [k])
        (map (fun cost => keyOf (Cost.project_id cost)) costs) (keysOf acc).
Proof.
  induction costs as [|cost costs IH]; intros acc; simpl; [reflexivity|].
  rewrite IH. unfold addCost. now rewrite keysOf_mapSet.
Qed.

(** The entry of a project after more costs have been added to a map. *)
Lemma mapGet_fold projectId costs :
  forall acc,
    mapGet projectId (fold_left addCost costs acc)
    = match costsOf projectId costs with
      | [] => mapGet projectId acc
      | _ :: _ =>
          Some (totalFrom
                  (match mapGet projectId acc with
                   | Some v => v
                   | None => zero
                   end)
                  (costsOf projectId costs))
      end.
Proof.
  induction costs as [|cost costs IH]; intros acc; simpl; [reflexivity|].
  rewrite IH. unfold addCost. rewrite mapGet_mapSet.
  destruct (sameValueZero projectId (Cost.project_id cost)) eqn:Hk; simpl.
  - assert (Hget : mapGet (Cost.project_id cost) acc = mapGet projectId acc).
    { clear IH. induction acc as [|[k0 v0] acc IHacc]; simpl; [reflexivity|].
      rewrite (@sameValueZero_trans _ _ k0 Hk).
      now destruct (sameValueZero (Cost.project_id cost) k0). }
    rewrite Hget.
    assert (Hfirst :
              PrimFloat.add
                match mapGet projectId acc with
                | Some v => orZero v
                | None => zero
                end (orZero (parseFloat (Cost.amount cost)))
              = PrimFloat.add
                  (orZero match mapGet projectId acc with
                          | Some v => v
                          | None => zero
                          end) (amountOf cost)).
    { destruct (mapGet projectId acc); reflexivity. }
    unfold totalFrom at 2. simpl. rewrite <- Hfirst.
    destruct (costsOf projectId costs); reflexivity.
  - destruct (costsOf projectId costs); reflexivity.
Qed.

Lemma distinct_step_NoDup keys :
  forall seen,
    NoDup seen ->
    NoDup (fold_left
             (fun seen k => if existsb (key_eqb k) seen then seen else seen ++ [k])
             keys seen).
Proof.
  induction keys as [|k keys IH]; intros seen Hseen; simpl; [exact Hseen|].
  apply IH. destruct (existsb (key_eqb k) seen) eqn:Hex; [exact Hseen|].
  apply NoDup_app; [exact Hseen|constructor; [intros []|constructor]|].
  intros x Hx [<-|[]].
  assert (existsb (key_eqb k) seen = true); [|congruence].
  apply existsb_exists. exists k. split; [exact Hx|apply key_eqb_refl].
Qed.

End MapFacts.

Section Actuals.
Import Js JsLib Financials MapFacts.
Local Open Scope list_scope.

(** X13. The map of actual costs has one entry for each distinct
    [project_id] among the costs, distinct as a [Map] tells keys apart
    (SameValueZero: [0] and [-0] are one key, [NaN] is one key, the number
    [1] and the string "1" are two), in the order in which the ids first
    appear. *)
Theorem one_entry_per_project costs :
  keysOf (calculateActualsByProject costs)
  = distinctKeys (map (fun cost => keyOf (Cost.project_id cost)) costs) /\
  NoDup (keysOf (calculateActualsByProject costs)) /\
  forall projectId,
    mapGet projectId (calculateActualsByProject costs) <> None <->
    exists cost,
      In cost costs /\ sameValueZero projectId (Cost.project_id cost) = true.
Proof.
  unfold calculateActualsByProject, distinctKeys.
  rewrite keysOf_fold. simpl. split; [reflexivity|].
  split; [apply distinct_step_NoDup; constructor|].
  intros projectId. rewrite mapGet_fold. simpl.
  destruct (costsOf projectId costs) as [|cost mine] eqn:Hmine.
  - split; [congruence|]. intros (cost & Hin & Hk).
    assert (Hin' : In cost (costsOf projectId costs))
      by (apply filter_In; split; assumption).
    rewrite Hmine in Hin'. contradiction.
  - split; [|discriminate]. intros _.
    assert (Hin : In cost (costsOf projectId costs))
      by (rewrite Hmine; now left).
    apply filter_In in Hin. eauto.
Qed.

(** X14. The total of a project is the sum of the amounts of its own
    costs, taken in the order of the list and starting from [0]; the costs
    of other projects, wherever they stand, have no part in it.  An amount
    that [parseFloat] cannot read counts as [0]. *)
Theorem project_total_is_sum_of_its_costs costs projectId :
  mapGet projectId (calculateActualsByProject costs)
  = match costsOf projectId costs with
    | [] => None
    | _ :: _ => Some (totalFrom zero (costsOf projectId costs))
    end.
Proof.
  unfold calculateActualsByProject. rewrite mapGet_fold. reflexivity.
Qed.

End Actuals.

(** ** Part XIX. [utils/projectAnalytics.js]: the dashboard figures *)

Module StatsFacts.
Import Js JsLib Analytics MoreProps.
Local Open Scope list_scope.

Lemma filter_without {X} (keep : X -> bool) before x after :
  keep x = false ->
  filter keep (before ++ x :: after) = filter keep (before ++ after).
Proof. intros H. rewrite !filter_app. simpl. now rewrite H. Qed.

Lemma filter_shorter {X} (keep : X -> bool) l :
  (List.length (filter keep l) <= List.length l)%nat.
Proof.
  induction l as [|x l IH]; simpl; [lia|].
  destruct (keep x); simpl; lia.
Qed.



End StatsFacts.

Section Dashboard.
Import Js JsLib Analytics MoreProps StatsFacts MoreExamples.
Local Open Scope list_scope.

(** X15. A project whose status is not one of "Planning", "In Progress"
    and "On Hold" has no part in the number of active projects, the total
    budget or the number of overdue projects, wherever it stands in the
    list; and there are no more overdue projects than active ones, nor
    more active ones than projects. *)
Theorem inactive_projects_do_not_count today before p after :
  isActive p = false ->
  let all := calculateProjectStats today (before ++ p :: after) in
  let others := calculateProjectStats today (before ++ after) in
  activeProjects all = activeProjects others /\
  totalBudget all = totalBudget others /\
  projectsOverdue all = projectsOverdue others /\
  (projectsOverdue all <= activeProjects all)%nat /\
  (activeProjects all <= List.length (before ++ after))%nat.
Proof.
  intros Hp all others. subst all others.
  unfold calculateProjectStats. simpl.
  rewrite (@filter_without _ isActive before p after Hp).
  repeat split; apply filter_shorter.
Qed.

(** A completed project between two active ones. *)
Lemma inactive_projects_do_not_count_witness :
  totalBudget
    (calculateProjectStats jun1 ([planned] ++ finished :: [undated]))
  = totalBudget (calculateProjectStats jun1 ([planned] ++ [undated])).
Proof.
  exact (proj1 (proj2 (@inactive_projects_do_not_count jun1 [planned]
                         finished [undated] eq_refl))).
Defined.



End Dashboard.

(** ** Part XX. The cleaning of the advisor's reply *)

Module ReplyFacts.
Import Js Boq Props MoreProps.

Lemma prefix_other c p c' r :
  c <> c' -> String.prefix (String c p) (String c' r) = false.
Proof.
  intros Hne. simpl. destruct (Ascii.ascii_dec c c'); [contradiction|reflexivity].
Qed.

(** Text without a backtick is copied by the removal of a pattern that
    starts with one. *)
Lemma removeAll_from_plain p body rest :
  noBacktick body = true ->
  removeAll_from (String "`" p) 0 (body ++ rest)
  = body ++ removeAll_from (String "`" p) 0 rest.
Proof.
  induction body as [|c body IH]; intros Hplain; [reflexivity|].
  unfold noBacktick in Hplain. simpl in Hplain.
  apply andb_true_iff in Hplain. destruct Hplain as [Hc Hbody].
  change ((String c body ++ rest)%string) with (String c (body ++ rest)).
  cbn [removeAll_from].
  rewrite prefix_other.
  - change ((String c body ++ removeAll_from (String "`" p) 0 rest)%string)
      with (String c (body ++ removeAll_from (String "`" p) 0 rest)).
    f_equal. now apply IH.
  - intros <-. discriminate.
Qed.

Lemma append_empty s : (s ++ "")%string = s.
Proof. induction s as [|c s IH]; simpl; [reflexivity|now rewrite IH]. Qed.

Lemma prefix_append pat rest : String.prefix pat (pat ++ rest) = true.
Proof.
  induction pat as [|c pat IH]; [destruct rest; reflexivity|].
  cbn [String.prefix append].
  destruct (Ascii.ascii_dec c c); [exact IH|contradiction].
Qed.

Lemma removeAll_from_skip pat s rest :
  removeAll_from pat (String.length s) (s ++ rest)
  = removeAll_from pat 0 rest.
Proof.
  induction s as [|c s IH]; [reflexivity|].
  cbn [String.length append removeAll_from]. exact IH.
Qed.

(** An occurrence at the start of the text is removed. *)
Lemma removeAll_at c pat rest :
  removeAll (String c pat) (String c pat ++ rest)
  = removeAll (String c pat) rest.
Proof.
  unfold removeAll.
  change ((String c pat ++ rest)%string) with (String c (pat ++ rest)).
  cbn [removeAll_from].
  change (String c (pat ++ rest)) with ((String c pat ++ rest)%string).
  rewrite prefix_append. cbn [String.length]. rewrite Nat.sub_succ, Nat.sub_0_r.
  apply removeAll_from_skip.
Qed.

Ltac decide_chars :=
  repeat match goal with
         | |- context [Ascii.ascii_dec ?x ?y] =>
             destruct (Ascii.ascii_dec x y); cbn [String.prefix append]
         end.

(** A text without a backtick that does not start with [json] does not
    either when a fence follows it. *)
Lemma prefix_json_fence body :
  noBacktick body = true ->
  String.prefix "json" body = false ->
  String.prefix "json" (body ++ fence) = false.
Proof.
  intros _.
  destruct body as [|a [|b [|c [|d body]]]]; cbn [String.prefix append];
    decide_chars; try reflexivity; try discriminate; auto.
  intros H. destruct body; discriminate H.
Qed.

(** The opening fence of a reply that has no [json] tag stays. *)
Lemma removeAll_json_untagged body :
  noBacktick body = true ->
  String.prefix "json" body = false ->
  removeAll (fence ++ "json") (fence ++ body ++ fence)
  = (fence ++ body ++ fence)%string.
Proof.
  intros Hplain Htag.
  assert (Hrest : removeAll_from "```json" 0 (body ++ fence)
                  = (body ++ fence)%string).
  { rewrite removeAll_from_plain by exact Hplain. reflexivity. }
  assert (H0 : String.prefix "```json" ("```" ++ body ++ fence) = false).
  { simpl. exact (prefix_json_fence body Hplain Htag). }
  assert (H1 : String.prefix "```json" ("``" ++ body ++ fence) = false).
  { destruct body as [|c body]; [reflexivity|].
    unfold noBacktick in Hplain. cbn [allChars] in Hplain.
    cbn [String.prefix append]. decide_chars; try reflexivity.
    subst c. discriminate Hplain. }
  assert (H2 : String.prefix "```json" ("`" ++ body ++ fence) = false).
  { destruct body as [|c body]; [reflexivity|].
    unfold noBacktick in Hplain. cbn [allChars] in Hplain.
    cbn [String.prefix append]. decide_chars; try reflexivity.
    subst c. discriminate Hplain. }
  unfold removeAll, fence in *.
  change (("```" ++ "json")%string) with "```json".
  change (("```" ++ body ++ "```")%string)
    with (String "`" (String "`" (String "`" (body ++ "```")))) in *.
  change (("``" ++ body ++ "```")%string)
    with (String "`" (String "`" (body ++ "```"))) in *.
  change (("`" ++ body ++ "```")%string)
    with (String "`" (body ++ "```")) in *.
  cbn [removeAll_from]. rewrite H0, H1, H2, Hrest. reflexivity.
Qed.

End ReplyFacts.

Section Reply.
Import Js Boq Props MoreProps ReplyFacts Examples.

(** X17. A reply without a backtick reaches [JSON.parse] trimmed and
    otherwise as it is; the same reply wrapped in a code fence reaches it
    in the same form, be the fence tagged [json] or, when the reply does
    not itself start with [json], untagged. *)
Theorem fenced_reply_is_unwrapped body :
  noBacktick body = true ->
  cleanReply body = trim body /\
  cleanReply (fence ++ "json" ++ body ++ fence) = trim body /\
  (String.prefix "json" body = false ->
   cleanReply (fence ++ body ++ fence) = trim body).
Proof.
  intros Hplain.
  assert (Hcopy : forall p rest,
             removeAll (String "`" p) (body ++ rest)
             = (body ++ removeAll (String "`" p) rest)%string)
    by (intros p rest; now apply removeAll_from_plain).
  assert (Hjson : removeAll (fence ++ "json") body = body).
  { rewrite <- (append_empty body) at 1. unfold fence. simpl.
    rewrite Hcopy. apply append_empty. }
  assert (Hfence : removeAll fence body = body).
  { rewrite <- (append_empty body) at 1. unfold fence.
    rewrite Hcopy. apply append_empty. }
  assert (Hclose : removeAll fence (body ++ fence) = body).
  { unfold fence. rewrite Hcopy. simpl. apply append_empty. }
  assert (Hopen : removeAll fence (fence ++ body ++ fence) = body).
  { unfold fence at 1 2. rewrite removeAll_at. exact Hclose. }
  unfold cleanReply. repeat split.
  - now rewrite Hjson, Hfence.
  - assert (H1 : removeAll (fence ++ "json") (fence ++ "json" ++ body ++ fence)
                 = (body ++ fence)%string).
    { change ((fence ++ "json" ++ body ++ fence)%string)
        with (("```json" ++ body ++ fence)%string).
      change ((fence ++ "json")%string) with "```json".
      rewrite removeAll_at, Hcopy. reflexivity. }
    now rewrite H1, Hclose.
  - intros Htag. now rewrite removeAll_json_untagged, Hopen.
Qed.

(** The reply of scenario B, bare and fenced. *)
Lemma fenced_reply_is_unwrapped_witness :
  let body := (newline ++ "{" ++ quote ++ "rate" ++ quote ++ ": 15000}"
               ++ newline)%string in
  cleanReply (fence ++ "json" ++ body ++ fence)
  = ("{" ++ quote ++ "rate" ++ quote ++ ": 15000}")%string.
Proof.
  intros body.
  exact (proj1 (proj2 (@fenced_reply_is_unwrapped body eq_refl))).
Defined.

End Reply.
